(** * The agent manager of [autogpt/agent_manager.py]

    A shallow embedding of the class [AgentManager]: the registry of agents
    (a Python [dict] keyed by [int] or [str]), the counter [next_key], and the
    operations [create_agent], [message_agent] and [delete_agent] with the
    three plugin loops that surround the call of [create_chat_completion].

    Conventions of the embedding.
    - Python exceptions are values of [exn]; a call that may raise returns a
      [result].
    - The list [messages] of an agent is mutated in place by the code. The
      body of a turn is therefore written in a monad [Turn] that threads the
      live list and keeps it when an exception is raised; [message_agent]
      stores the list back under the key that was resolved, which is what the
      aliasing between the local name [messages] and the tuple in
      [self.agents] amounts to. Every record owns its own list.
    - [create_chat_completion] and the plugins are code from outside this
      file of the program. The completion call is a variable of the section;
      a plugin is a record of its six methods. A handler is a function of
      the value it is handed that returns or raises; a handler that itself
      mutates the list it receives is outside this model.
    - Strings are ASCII strings; the length limit that recent interpreters
      put on the conversion between [int] and [str] is not modelled.
    - The registry is a finite map wherever the order of the [dict] plays no
      part. [list_agents] shows that order: for it the registry is the list
      of its entries, oldest key first, and [view] takes a manager with such
      a registry to the manager over the finite map.
    - Of [autogpt/api_utils.py] the file has the names of the blobs and the
      cut of the prefix in [list_files]; the storage service is a variable. *)

From stdpp Require Import base option list strings pretty gmap fin_maps.
From Stdlib Require Import ZArith Ascii String Sorted Lia.

Local Open Scope string_scope.
Local Open Scope Z_scope.
Local Open Scope list_scope.

(** ** Python values used by the manager *)

Module Py.

(** Exception classes. [Other] stands for a class defined outside the
    builtins (the completion backend and the plugins raise what they
    like). *)
Inductive exn : Type :=
| ValueError
| UnboundLocalError
| KeyError
| Other (cls : string).

Inductive result (A : Type) : Type :=
| Return (a : A)
| Raise (e : exn).
Arguments Return {A} a.
Arguments Raise {A} e.

Definition is_raise {A} (r : result A) : bool :=
  match r with Raise _ => true | Return _ => false end.

(** Truthiness of a [str]: [if s] holds for the non-empty strings. *)
Definition truthy (s : string) : bool :=
  match s with EmptyString => false | String _ _ => true end.

(** Characters that [int] skips on both sides of its argument: tab, line
    feed, vertical tab, form feed, carriage return and space. *)
Definition is_space (a : ascii) : bool :=
  let n := nat_of_ascii a in
  ((9 <=? n) && (n <=? 13) || (n =? 32))%nat.

Definition digit_val (a : ascii) : option Z :=
  let n := nat_of_ascii a in
  if ((48 <=? n) && (n <=? 57))%nat then Some (Z.of_nat (n - 48)) else None.

Fixpoint lstrip (l : list ascii) : list ascii :=
  match l with
  | a :: l' => if is_space a then lstrip l' else l
  | [] => []
  end.

Definition strip (l : list ascii) : list ascii :=
  rev (lstrip (rev (lstrip l))).

(** The rest of a decimal literal, after a digit: digits, each optionally
    preceded by one underscore. *)
Fixpoint digits (acc : Z) (l : list ascii) : option Z :=
  match l with
  | [] => Some acc
  | a :: l' =>
      match digit_val a with
      | Some d => digits (10 * acc + d) l'
      | None =>
          if Ascii.eqb a "_"%char then
            match l' with
            | b :: l'' =>
                match digit_val b with
                | Some d => digits (10 * acc + d) l''
                | None => None
                end
            | [] => None
            end
          else None
      end
  end.

Definition unsigned (l : list ascii) : option Z :=
  match l with
  | a :: l' =>
      match digit_val a with
      | Some d => digits d l'
      | None => None
      end
  | [] => None
  end.

(** [int(s)] for a [str]: surrounding white space, an optional sign, a
    decimal literal; [None] is [ValueError]. *)
Definition int_of_str (s : string) : option Z :=
  match strip (list_ascii_of_string s) with
  | a :: l' =>
      if Ascii.eqb a "+"%char then unsigned l'
      else if Ascii.eqb a "-"%char then Z.opp <$> unsigned l'
      else unsigned (a :: l')
  | [] => None
  end.

(** [str(n)] for an [int]. *)
Definition str_of_int (n : Z) : string := pretty n.

End Py.
Export Py.

(** ** Keys of the registry: [Union[int, str]] *)

Inductive key : Type :=
| KInt (n : Z)
| KStr (s : string).

Global Instance key_eq_dec : EqDecision key.
Proof. solve_decision. Defined.

Global Instance key_countable : Countable key.
Proof.
  refine (inj_countable'
            (fun k => match k with KInt n => inl n | KStr s => inr s end)
            (fun x => match x with inl n => KInt n | inr s => KStr s end) _).
  intros []; reflexivity.
Defined.

(** [int(key)] and [str(key)]. *)
Definition int_ (k : key) : result Z :=
  match k with
  | KInt n => Return n
  | KStr s =>
      match int_of_str s with
      | Some n => Return n
      | None => Raise ValueError
      end
  end.

Definition str_ (k : key) : string :=
  match k with
  | KInt n => str_of_int n
  | KStr s => s
  end.

(** ** Messages, plugins and configuration *)

(** A message is a dictionary with the two entries ["role"] and
    ["content"]. *)
Record Message : Type := mkMessage { role : string; content : string }.

(** [{"role": "user", "content": s}] and its assistant counterpart. *)
Definition user_msg (s : string) : Message := mkMessage "user" s.
Definition assistant_msg (s : string) : Message := mkMessage "assistant" s.

Definition newline : string := String (ascii_of_nat 10) EmptyString.

(** The six methods of a plugin that the manager calls. *)
Record Plugin : Type := mkPlugin {
  can_handle_pre_instruction : bool;
  pre_instruction : list Message -> result (list Message);
  can_handle_on_instruction : bool;
  on_instruction : list Message -> result string;
  can_handle_post_instruction : bool;
  post_instruction : string -> result string
}.

Record Config : Type := mkConfig { plugins : list Plugin }.

(** ** The monad of a turn: the live list [messages], and exceptions *)

Definition Turn (A : Type) : Type := list Message -> result A * list Message.

Global Instance Turn_ret : MRet Turn := fun A a ms => (Return a, ms).

Global Instance Turn_bind : MBind Turn := fun A B f m ms =>
  match m ms with
  | (Return a, ms') => f a ms'
  | (Raise e, ms') => (Raise e, ms')
  end.

(** [messages.append(x)] *)
Definition append (x : Message) : Turn unit :=
  fun ms => (Return tt, ms ++ [x]).

(** [messages.extend(xs)], also written as a loop of [append]. *)
Definition extend (xs : list Message) : Turn unit :=
  fun ms => (Return tt, ms ++ xs).

(** A call that is handed the live list. *)
Definition observe {A} (f : list Message -> result A) : Turn A :=
  fun ms => (f ms, ms).

(** A call that does not see the list. *)
Definition lift {A} (r : result A) : Turn A :=
  fun ms => (r, ms).

(** ** The three plugin loops *)

(** [for plugin in self.cfg.plugins]: the pre-instruction loop. A falsy
    return value (an empty list) adds nothing. *)
Fixpoint pre_loop (ps : list Plugin) : Turn unit :=
  match ps with
  | [] => mret tt
  | plugin :: ps' =>
      (if can_handle_pre_instruction plugin then
         plugin_messages ← observe (pre_instruction plugin);
         extend plugin_messages
       else mret tt);;
      pre_loop ps'
  end.

(** [for i, plugin in enumerate(self.cfg.plugins)]: the on-instruction loop,
    with the running value of [plugins_reply]. [i] is the position of the
    plugin in the list. *)
Fixpoint on_loop (i : nat) (ps : list Plugin) (plugins_reply : string)
  : Turn string :=
  match ps with
  | [] => mret plugins_reply
  | plugin :: ps' =>
      if can_handle_on_instruction plugin then
        plugin_result ← observe (on_instruction plugin);
        if truthy plugin_result then
          let sep := match i with O => "" | S _ => newline end in
          on_loop (S i) ps' (plugins_reply +:+ sep +:+ plugin_result)
        else on_loop (S i) ps' plugins_reply
      else on_loop (S i) ps' plugins_reply
  end.

(** The post-instruction loop over [agent_reply]. *)
Fixpoint post_loop (ps : list Plugin) (agent_reply : string) : result string :=
  match ps with
  | [] => Return agent_reply
  | plugin :: ps' =>
      if can_handle_post_instruction plugin then
        match post_instruction plugin agent_reply with
        | Return r => post_loop ps' r
        | Raise e => Raise e
        end
      else post_loop ps' agent_reply
  end.

(** [if plugins_reply and plugins_reply != ""] *)
Definition worth_appending (plugins_reply : string) : bool :=
  truthy plugins_reply && negb (String.eqb plugins_reply "").

(** ** The manager *)

(** [(task, full_message_history, model)] *)
Definition AgentRecord : Type := string * list Message * string.

Record AgentManager : Type := mkManager {
  next_key : Z;
  cfg : Config;
  agents : gmap key AgentRecord
}.

(** [__init__] *)
Definition init (c : Config) (ags : gmap key AgentRecord) : AgentManager :=
  {| next_key := Z.of_nat (size ags); cfg := c; agents := ags |}.

Definition set_agents (self : AgentManager) (ags : gmap key AgentRecord)
  : AgentManager :=
  {| next_key := next_key self; cfg := cfg self; agents := ags |}.

(** Lines 62-67 of [create_agent]: the record goes under the current
    [next_key] and the counter moves by one. *)
Definition stored (self : AgentManager) (task model : string)
    (messages : list Message) : AgentManager :=
  {| next_key := next_key self + 1;
     cfg := cfg self;
     agents := <[KInt (next_key self) := (task, messages, model)]> (agents self) |}.

Section Manager.

(** [autogpt.llm.create_chat_completion(model, messages, cfg)] *)
Variable create_chat_completion :
  string -> list Message -> Config -> result string.

(** Lines 38-61 of [create_agent], on the local list [messages]. *)
Definition create_turn (c : Config) (model : string) : Turn string :=
  pre_loop (plugins c);;
  agent_reply ← observe (fun ms => create_chat_completion model ms c);
  append (mkMessage "assistant" agent_reply);;
  plugins_reply ← on_loop 0 (plugins c) "";
  (if worth_appending plugins_reply
   then append (mkMessage "assistant" plugins_reply)
   else mret tt);;
  mret agent_reply.

(** [create_agent]. An exception before line 62 leaves the manager as it
    was; the post-instruction loop runs after the record is stored. *)
Definition create_agent (self : AgentManager) (task prompt model : string)
  : result (Z * string) * AgentManager :=
  match create_turn (cfg self) model [mkMessage "user" prompt] with
  | (Raise e, _) => (Raise e, self)
  | (Return agent_reply, messages) =>
      let key := next_key self in
      let self' := stored self task model messages in
      match post_loop (plugins (cfg self)) agent_reply with
      | Return reply => (Return (key, reply), self')
      | Raise e => (Raise e, self')
      end
  end.

(** Lines 87-92 of [message_agent]: the key under which the record is
    found. [Return None] is the case where no branch is taken and the names
    [task], [messages], [model] stay unbound. *)
Definition find_agent (self : AgentManager) (k : key) : result (option key) :=
  if decide (is_Some (agents self !! k)) then Return (Some k)
  else
    match int_ k with
    | Raise e => Raise e
    | Return n =>
        if decide (is_Some (agents self !! KInt n)) then Return (Some (KInt n))
        else if decide (is_Some (agents self !! KStr (str_ k)))
             then Return (Some (KStr (str_ k)))
             else Return None
    end.

(** Lines 95-129 of [message_agent], on the list of the record. *)
Definition message_turn (c : Config) (model message : string) : Turn string :=
  append (mkMessage "user" message);;
  pre_loop (plugins c);;
  agent_reply ← observe (fun ms => create_chat_completion model ms c);
  append (mkMessage "assistant" agent_reply);;
  plugins_reply ← on_loop 0 (plugins c) agent_reply;
  (if worth_appending plugins_reply
   then append (mkMessage "assistant" plugins_reply)
   else mret tt);;
  lift (post_loop (plugins c) agent_reply).

(** [message_agent]. The list of the record is the one the turn works on, so
    what the turn did to it is in the registry whether the turn returned or
    raised. The handler of [except Exception] hands the exception, a dump of
    the registry, the key and the trace to [print_log] and raises the
    exception again; it does not touch the manager. *)
Definition message_agent (self : AgentManager) (k : key) (message : string)
  : result string * AgentManager :=
  match find_agent self k with
  | Raise e => (Raise e, self)
  | Return None => (Raise UnboundLocalError, self)
  | Return (Some k') =>
      match agents self !! k' with
      | None => (Raise UnboundLocalError, self) (* [k'] is in the registry *)
      | Some (task, messages, model) =>
          let '(r, messages') := message_turn (cfg self) model message messages in
          (r, set_agents self (<[k' := (task, messages', model)]> (agents self)))
      end
  end.

(** [delete_agent]: only [KeyError] is caught. *)
Definition delete_agent (self : AgentManager) (k : key)
  : result bool * AgentManager :=
  match int_ k with
  | Raise e => (Raise e, self)
  | Return n =>
      match agents self !! KInt n with
      | Some _ => (Return true, set_agents self (delete (KInt n) (agents self)))
      | None => (Return false, self)
      end
  end.

(** What is appended after the raw reply. *)
Definition on_suffix (plugins_reply : string) : list Message :=
  if worth_appending plugins_reply then [assistant_msg plugins_reply] else [].

(** The part that the two turns share, lines 44-61 and 104-129: what
    happens once the pre-instruction loop has returned with the list
    [h0]; [seed] is the initial value of [plugins_reply] and [final] what the
    turn does with [agent_reply] at its end. *)
Definition after_pre (c : Config) (model : string)
    (seed : string -> string) (final : string -> result string)
    (h0 : list Message) : result string * list Message :=
  match create_chat_completion model h0 c with
  | Raise e => (Raise e, h0)
  | Return agent_reply =>
      let h1 := h0 ++ [assistant_msg agent_reply] in
      match fst (on_loop 0 (plugins c) (seed agent_reply) h1) with
      | Raise e => (Raise e, h1)
      | Return plugins_reply =>
          (final agent_reply, h1 ++ on_suffix plugins_reply)
      end
  end.

End Manager.

(** Every integer key of the registry is below [next_key]. *)
Definition keys_below_next (self : AgentManager) : Prop :=
  forall n, is_Some (agents self !! KInt n) -> n < next_key self.

(** ** Sequences of calls *)

(** A caller that issues [create_agent] and [delete_agent] calls one after
    the other and goes on after a call that raised. [run] collects the keys
    that [create_agent] returned, oldest first. *)
Inductive op : Type :=
| OpCreate (task prompt model : string)
| OpDelete (k : key).

Section Run.

Variable create_chat_completion :
  string -> list Message -> Config -> result string.

Definition step (self : AgentManager) (o : op) : list Z * AgentManager :=
  match o with
  | OpCreate task prompt model =>
      match create_agent create_chat_completion self task prompt model with
      | (Return (k, _), self') => ([k], self')
      | (Raise _, self') => ([], self')
      end
  | OpDelete k => ([], snd (delete_agent self k))
  end.

Fixpoint run (self : AgentManager) (ops : list op) : list Z * AgentManager :=
  match ops with
  | [] => ([], self)
  | o :: ops' =>
      let '(ks, self') := step self o in
      let '(ks', self'') := run self' ops' in
      (ks ++ ks', self'')
  end.

End Run.

(** ** Stand-ins for the collaborators, used in the examples *)

(** A backend that answers every call with the same text. *)
Definition always (reply : string)
  : string -> list Message -> Config -> result string :=
  fun _ _ _ => Return reply.

(** A backend whose every call raises. *)
Definition failing : string -> list Message -> Config -> result string :=
  fun _ _ _ => Raise (Other "BackendError").

Definition no_plugins : Config := mkConfig [].

(** A plugin that takes part in no phase. *)
Definition silent : Plugin :=
  mkPlugin false (fun _ => Return []) false (fun _ => Return "")
           false (fun s => Return s).

(** A plugin that takes part in the on-instruction phase only and returns
    [s] there. *)
Definition says (s : string) : Plugin :=
  mkPlugin false (fun _ => Return []) true (fun _ => Return s)
           false (fun r => Return r).

(** A plugin that takes part in the pre-instruction phase only and returns
    one system message. *)
Definition primes (s : string) : Plugin :=
  mkPlugin true (fun _ => Return [mkMessage "system" s])
           false (fun _ => Return "") false (fun r => Return r).

(** Managers for the examples. *)
Definition a_task_of_old : AgentRecord := ("old task", [user_msg "old"], "model-x").

(** A manager built on a registry with one record, under the key 5. *)
Definition five_only : AgentManager :=
  init no_plugins {[ KInt 5 := a_task_of_old ]}.

(** A manager with one agent under the key 0 and an empty history. *)
Definition one_agent : AgentManager :=
  init no_plugins {[ KInt 0 := ("t", [], "m") ]}.

Definition two_plugins : Config := mkConfig [primes "be brief"; says "A"].

Definition helped_agent : AgentManager :=
  init two_plugins {[ KInt 0 := ("t", [user_msg "p"; assistant_msg "r"], "m") ]}.

Definition seven_only : AgentManager :=
  init no_plugins {[ KInt 7 := ("t", [], "m") ]}.

(** Managers for the order of the lookups: one with a record under the
    integer 7 and another under the string ["7"], one with a record under
    the string ["7"] only, and one with a record under a string that
    [int] does not read. *)
Definition both_sevens : AgentManager :=
  init no_plugins {[ KInt 7 := ("a", [], "m"); KStr "7" := ("b", [], "m") ]}.

Definition seven_as_string : AgentManager :=
  init no_plugins {[ KStr "7" := ("s", [], "m") ]}.

Definition named_agent : AgentManager :=
  init no_plugins {[ KStr "abc" := ("n", [], "m") ]}.

(** A plugin that takes part in the post-instruction phase only and raises
    there. *)
Definition breaks : Plugin :=
  mkPlugin false (fun _ => Return []) false (fun _ => Return "")
           true (fun _ => Raise (Other "PluginError")).

(** A plugin that takes part in the post-instruction phase only and puts
    [s] in front of the reply. *)
Definition tags (s : string) : Plugin :=
  mkPlugin false (fun _ => Return []) false (fun _ => Return "")
           true (fun r => Return (s +:+ r)).

(** A plugin that takes part in the pre-instruction phase only and raises
    there. *)
Definition refuses : Plugin :=
  mkPlugin true (fun _ => Raise (Other "PluginError"))
           false (fun _ => Return "") false (fun r => Return r).

Definition broken_post : AgentManager := init (mkConfig [breaks]) ∅.

Definition refused_agent : AgentManager :=
  init (mkConfig [primes "be brief"; refuses]) {[ KInt 0 := ("t", [], "m") ]}.

(** ** Sequences of calls of the three operations *)

(** A caller that issues calls of [create_agent], [message_agent] and
    [delete_agent] in any order and goes on after a call that raised;
    [exec] is the manager after the last call. *)
Inductive call : Type :=
| CallCreate (task prompt model : string)
| CallMessage (k : key) (message : string)
| CallDelete (k : key).

Section Exec.

Variable create_chat_completion :
  string -> list Message -> Config -> result string.

Definition perform (self : AgentManager) (c : call) : AgentManager :=
  match c with
  | CallCreate task prompt model =>
      snd (create_agent create_chat_completion self task prompt model)
  | CallMessage k message =>
      snd (message_agent create_chat_completion self k message)
  | CallDelete k => snd (delete_agent self k)
  end.

Definition exec (self : AgentManager) (calls : list call) : AgentManager :=
  fold_left perform calls self.

End Exec.

(** A key that [create_agent] will not use any more: a string, or an integer
    below the counter. *)
Definition used_up (self : AgentManager) (k : key) : Prop :=
  match k with
  | KInt n => n < next_key self
  | KStr _ => True
  end.

(** A record that one of the [create_agent] calls of [calls] made and that
    turns of [message_agent] may have extended: the task and the model of
    the call, and a history that starts with its prompt. *)
Definition made_by (calls : list call) (rec : AgentRecord) : Prop :=
  exists task prompt model rest,
    In (CallCreate task prompt model) calls /\
    rec = (task, user_msg prompt :: rest, model).

(** The registry of a manager that started empty: integer keys between 0
    and the counter, each with a record made by one of the calls. *)
Definition from_calls (calls : list call) (self : AgentManager) : Prop :=
  0 <= next_key self /\
  forall k rec, agents self !! k = Some rec ->
    (exists n, k = KInt n /\ 0 <= n < next_key self) /\ made_by calls rec.

(** ** The registry with its order *)

(** A [dict] keeps its entries in the order in which their keys were first
    inserted, and [list_agents] shows that order. The registry is here the
    list of its entries, oldest key first, with the three operations a
    [dict] offers to the manager; [od_map] forgets the order. *)
Definition odict : Type := list (key * AgentRecord).

(** [d[k]], [None] for a [KeyError]. *)
Fixpoint od_get (k : key) (d : odict) : option AgentRecord :=
  match d with
  | [] => None
  | (k', v) :: d' => if decide (k' = k) then Some v else od_get k d'
  end.

(** [d[k] = v]: a key that is there keeps its place, a new key goes to the
    end. *)
Fixpoint od_set (k : key) (v : AgentRecord) (d : odict) : odict :=
  match d with
  | [] => [(k, v)]
  | (k', v') :: d' =>
      if decide (k' = k) then (k, v) :: d' else (k', v') :: od_set k v d'
  end.

(** [del d[k]] for a key that is there. *)
Definition od_del (k : key) (d : odict) : odict :=
  List.filter (fun kv => negb (bool_decide (fst kv = k))) d.

Definition od_map (d : odict) : gmap key AgentRecord := list_to_map d.

(** The keys of a [dict] are pairwise different. *)
Definition od_wf (d : odict) : Prop := NoDup (map fst d).

Record OrderedManager : Type := mkOrdered {
  o_next_key : Z;
  o_cfg : Config;
  o_agents : odict
}.

(** The manager without the order of its registry. *)
Definition view (o : OrderedManager) : AgentManager :=
  {| next_key := o_next_key o; cfg := o_cfg o; agents := od_map (o_agents o) |}.

Definition o_set_agents (o : OrderedManager) (d : odict) : OrderedManager :=
  {| o_next_key := o_next_key o; o_cfg := o_cfg o; o_agents := d |}.

(** [__init__] *)
Definition ordered_init (c : Config) (d : odict) : OrderedManager :=
  {| o_next_key := Z.of_nat (List.length d); o_cfg := c; o_agents := d |}.

Section Ordered.

Variable create_chat_completion :
  string -> list Message -> Config -> result string.

(** [create_agent] on the ordered registry. *)
Definition ordered_create_agent (o : OrderedManager) (task prompt model : string)
  : result (Z * string) * OrderedManager :=
  match create_turn create_chat_completion (o_cfg o) model [mkMessage "user" prompt] with
  | (Raise e, _) => (Raise e, o)
  | (Return agent_reply, messages) =>
      let key := o_next_key o in
      let o' :=
        {| o_next_key := key + 1;
           o_cfg := o_cfg o;
           o_agents := od_set (KInt key) (task, messages, model) (o_agents o) |} in
      match post_loop (plugins (o_cfg o)) agent_reply with
      | Return reply => (Return (key, reply), o')
      | Raise e => (Raise e, o')
      end
  end.

(** [message_agent] on the ordered registry: the tuple stays where it is in
    the [dict], its list is the one the turn has worked on. *)
Definition ordered_message_agent (o : OrderedManager) (k : key) (message : string)
  : result string * OrderedManager :=
  match find_agent (view o) k with
  | Raise e => (Raise e, o)
  | Return None => (Raise UnboundLocalError, o)
  | Return (Some k') =>
      match od_get k' (o_agents o) with
      | None => (Raise UnboundLocalError, o)
      | Some (task, messages, model) =>
          let '(r, messages') :=
            message_turn create_chat_completion (o_cfg o) model message messages in
          (r, o_set_agents o (od_set k' (task, messages', model) (o_agents o)))
      end
  end.

(** [delete_agent] on the ordered registry. *)
Definition ordered_delete_agent (o : OrderedManager) (k : key)
  : result bool * OrderedManager :=
  match int_ k with
  | Raise e => (Raise e, o)
  | Return n =>
      match od_get (KInt n) (o_agents o) with
      | Some _ => (Return true, o_set_agents o (od_del (KInt n) (o_agents o)))
      | None => (Return false, o)
      end
  end.

End Ordered.

(** [list_agents]: [(key, task)] for every entry of the registry, in the
    order of the [dict]. *)
Definition list_agents (o : OrderedManager) : list (key * string) :=
  map (fun '(k, (task, _, _)) => (k, task)) (o_agents o).

(** Sequences of calls on the ordered registry. *)
Section OrderedExec.

Variable create_chat_completion :
  string -> list Message -> Config -> result string.

Definition ordered_perform (o : OrderedManager) (c : call) : OrderedManager :=
  match c with
  | CallCreate task prompt model =>
      snd (ordered_create_agent create_chat_completion o task prompt model)
  | CallMessage k message =>
      snd (ordered_message_agent create_chat_completion o k message)
  | CallDelete k => snd (ordered_delete_agent o k)
  end.

Definition ordered_exec (o : OrderedManager) (calls : list call) : OrderedManager :=
  fold_left ordered_perform calls o.

End OrderedExec.

(** The keys of the registry are integers below the counter, in increasing
    order. *)
Definition oldest_first (o : OrderedManager) : Prop :=
  0 <= o_next_key o /\
  exists ns,
    map fst (o_agents o) = map KInt ns /\
    StronglySorted Z.lt ns /\
    Forall (fun n => 0 <= n < o_next_key o) ns.

(** An ordered registry with an integer and a string key. *)
Definition two_kinds : OrderedManager :=
  ordered_init no_plugins
    [(KInt 7, ("a", [user_msg "p"], "m")); (KStr "x", ("b", [], "m"))].

(** ** The file helpers of [autogpt/api_utils.py]

    The bucket is a service outside the program: what its client returns is
    a variable of the section below. What the helpers do with strings is
    modelled here: the names of the blobs and the cut of the prefix in
    [list_files]. *)

(** [f"godmode-files/{agent_id}/"] *)
Definition files_prefix (agent_id : string) : string :=
  "godmode-files/" +:+ agent_id +:+ "/".

(** [f"godmode-files/{agent_id}/{filename}"], the name of the blob that
    [write_file] writes and [get_file] reads. *)
Definition file_blob_name (agent_id filename : string) : string :=
  "godmode-files/" +:+ agent_id +:+ "/" +:+ filename.

(** [c in s] for a character. *)
Fixpoint has_char (c : ascii) (s : string) : bool :=
  match s with
  | EmptyString => false
  | String a s' => Ascii.eqb a c || has_char c s'
  end.

(** [s.replace(old, new)] for a non-empty [old], from left to right: at an
    occurrence of [old] the result gets [new] and the scan goes on behind
    the occurrence ([skip] counts the characters of it that are still to be
    passed over). *)
Fixpoint replace_from (old new : string) (skip : nat) (s : string) : string :=
  match s with
  | EmptyString => EmptyString
  | String c s' =>
      match skip with
      | S k => replace_from old new k s'
      | O =>
          if String.prefix old s
          then new +:+ replace_from old new (String.length old - 1) s'
          else String c (replace_from old new 0 s')
      end
  end.

(** With an empty [old], [new] goes in front of every character and at the
    end. *)
Fixpoint replace_empty (new : string) (s : string) : string :=
  match s with
  | EmptyString => new
  | String c s' => new +:+ String c (replace_empty new s')
  end.

(** [s.replace(old, new)] *)
Definition str_replace (old new s : string) : string :=
  match old with
  | EmptyString => replace_empty new s
  | String _ _ => replace_from old new 0 s
  end.

Section Storage.

(** The names of the blobs of [bucket.list_blobs(prefix=prefix)], in the
    order of the listing. *)
Variable list_blobs : string -> list string.

(** [list_files] *)
Definition list_files (agent_id : string) : list string :=
  let prefix := files_prefix agent_id in
  map (fun name => str_replace prefix "" name) (list_blobs prefix).

End Storage.

(** * Properties *)

(** ** The conversions *)

Example int_of_str_samples :
  int_of_str "7" = Some 7 /\ int_of_str " -1_000 " = Some (-1000) /\
  int_of_str "007" = Some 7 /\ int_of_str "abc" = None /\
  int_of_str "" = None /\ int_of_str "1__0" = None /\
  int_of_str "+ 1" = None /\ int_of_str "7_" = None /\
  str_of_int 7 = "7" /\ str_of_int (-12) = "-12" /\ str_of_int 0 = "0".
Proof. repeat split; reflexivity. Qed.

(** The scenario of one call without plugins: the first key is 0 and the
    history holds the prompt and the reply. *)
Example create_agent_first :
  create_agent (always "Hi there") (init no_plugins ∅)
    "find prices" "Hello" "model-x"
  = (Return (0, "Hi there"),
     {| next_key := 1;
        cfg := no_plugins;
        agents :=
          {[ KInt 0 :=
               ("find prices",
                [user_msg "Hello"; assistant_msg "Hi there"],
                "model-x") ]} |}).
Proof. reflexivity. Qed.

(** ** The loops *)

Lemma bind_unfold {A B} (m : Turn A) (f : A -> Turn B) ms :
  (m ≫= f) ms =
  match m ms with
  | (Return a, ms') => f a ms'
  | (Raise e, ms') => (Raise e, ms')
  end.
Proof. reflexivity. Qed.

Lemma pre_loop_cons plugin ps ms :
  pre_loop (plugin :: ps) ms =
  if can_handle_pre_instruction plugin then
    match pre_instruction plugin ms with
    | Return plugin_messages => pre_loop ps (ms ++ plugin_messages)
    | Raise e => (Raise e, ms)
    end
  else pre_loop ps ms.
Proof.
  cbn [pre_loop]. rewrite bind_unfold.
  destruct (can_handle_pre_instruction plugin); [|reflexivity].
  rewrite bind_unfold. unfold observe, extend.
  destruct (pre_instruction plugin ms); reflexivity.
Qed.

(** The pre-instruction loop only adds messages at the end of the list,
    whether it returns or raises. *)
Lemma pre_loop_extends ps : forall ms r ms',
  pre_loop ps ms = (r, ms') -> exists added, ms' = ms ++ added.
Proof.
  induction ps as [|plugin ps IH]; intros ms r ms' H.
  - inversion H; subst. exists []. by rewrite app_nil_r.
  - rewrite pre_loop_cons in H.
    destruct (can_handle_pre_instruction plugin); [|by eapply IH].
    destruct (pre_instruction plugin ms) as [pm|e].
    + apply IH in H as [added ->]. exists (pm ++ added). by rewrite app_assoc.
    + inversion H; subst. exists []. by rewrite app_nil_r.
Qed.

Lemma pre_loop_skip ps ms :
  Forall (fun p => can_handle_pre_instruction p = false) ps ->
  pre_loop ps ms = (Return tt, ms).
Proof.
  induction 1 as [|p ps Hp _ IH]; [reflexivity|].
  by rewrite pre_loop_cons, Hp.
Qed.

Lemma on_loop_cons i plugin ps s ms :
  on_loop i (plugin :: ps) s ms =
  if can_handle_on_instruction plugin then
    match on_instruction plugin ms with
    | Return plugin_result =>
        if truthy plugin_result then
          on_loop (S i) ps
            (s +:+ match i with O => "" | S _ => newline end +:+ plugin_result) ms
        else on_loop (S i) ps s ms
    | Raise e => (Raise e, ms)
    end
  else on_loop (S i) ps s ms.
Proof.
  cbn [on_loop].
  destruct (can_handle_on_instruction plugin); [|reflexivity].
  rewrite bind_unfold. unfold observe.
  destruct (on_instruction plugin ms) as [pr|e]; [|reflexivity].
  by destruct (truthy pr).
Qed.

(** The on-instruction loop leaves the list as it is. *)
Lemma on_loop_frame ps : forall i s ms, snd (on_loop i ps s ms) = ms.
Proof.
  induction ps as [|plugin ps IH]; intros i s ms; [reflexivity|].
  rewrite on_loop_cons.
  destruct (can_handle_on_instruction plugin); [|apply IH].
  destruct (on_instruction plugin ms) as [pr|e]; [|reflexivity].
  destruct (truthy pr); apply IH.
Qed.

(** Without a participating plugin the aggregate is the seed. *)
Lemma on_loop_skip ps : forall i s ms,
  Forall (fun p => can_handle_on_instruction p = false) ps ->
  on_loop i ps s ms = (Return s, ms).
Proof.
  induction ps as [|p ps IH]; intros i s ms H; [reflexivity|].
  inversion H as [|? ? Hp Hps]; subst.
  rewrite on_loop_cons, Hp. by apply IH.
Qed.

Lemma worth_appending_truthy s : worth_appending s = truthy s.
Proof. by destruct s. Qed.

(** ** The two turns, phase by phase *)

Section Turns.

Variable llm : string -> list Message -> Config -> result string.

Lemma message_turn_phases c model message hist :
  message_turn llm c model message hist =
  match pre_loop (plugins c) (hist ++ [user_msg message]) with
  | (Raise e, h0) => (Raise e, h0)
  | (Return _, h0) =>
      after_pre llm c model (fun r => r) (post_loop (plugins c)) h0
  end.
Proof.
  unfold message_turn, after_pre, on_suffix. rewrite bind_unfold. unfold append at 1.
  rewrite bind_unfold. fold (user_msg message).
  destruct (pre_loop (plugins c) (hist ++ [user_msg message])) as [[[]|e] h0];
    [|reflexivity].
  rewrite bind_unfold. unfold observe at 1.
  destruct (llm model h0 c) as [agent_reply|e]; [|reflexivity].
  rewrite bind_unfold. unfold append at 1. rewrite bind_unfold.
  fold (assistant_msg agent_reply).
  pose proof (on_loop_frame (plugins c) 0 agent_reply
                (h0 ++ [assistant_msg agent_reply])) as Hfr.
  destruct (on_loop 0 (plugins c) agent_reply _) as [[plugins_reply|e] h1];
    simpl in Hfr; subst h1; [|reflexivity].
  rewrite bind_unfold. cbn [fst].
  destruct (worth_appending plugins_reply); unfold append, lift; cbn;
    by rewrite ?app_nil_r.
Qed.

Lemma create_turn_phases c model hist :
  create_turn llm c model hist =
  match pre_loop (plugins c) hist with
  | (Raise e, h0) => (Raise e, h0)
  | (Return _, h0) => after_pre llm c model (fun _ => "") Return h0
  end.
Proof.
  unfold create_turn, after_pre, on_suffix. rewrite bind_unfold.
  destruct (pre_loop (plugins c) hist) as [[[]|e] h0]; [|reflexivity].
  rewrite bind_unfold. unfold observe at 1.
  destruct (llm model h0 c) as [agent_reply|e]; [|reflexivity].
  rewrite bind_unfold. unfold append at 1. rewrite bind_unfold.
  fold (assistant_msg agent_reply).
  pose proof (on_loop_frame (plugins c) 0 ""
                (h0 ++ [assistant_msg agent_reply])) as Hfr.
  destruct (on_loop 0 (plugins c) "" _) as [[plugins_reply|e] h1];
    simpl in Hfr; subst h1; [|reflexivity].
  rewrite bind_unfold. cbn [fst].
  destruct (worth_appending plugins_reply); unfold append; cbn;
    by rewrite ?app_nil_r.
Qed.

(** Whatever [after_pre] does, the list it was given is still there. *)
Lemma after_pre_prefix c model seed final h0 :
  h0 `prefix_of` snd (after_pre llm c model seed final h0).
Proof.
  unfold after_pre.
  destruct (llm model h0 c) as [agent_reply|e]; [|done].
  destruct (fst (on_loop _ _ _ _)); cbn [snd].
  - rewrite <- app_assoc. by apply prefix_app_r.
  - by apply prefix_app_r.
Qed.

(** ** [message_agent] by cases *)

Lemma find_agent_in_registry self k k' :
  find_agent self k = Return (Some k') -> is_Some (agents self !! k').
Proof.
  unfold find_agent. case_decide; [by intros [= <-]|].
  destruct (int_ k) as [n|e]; [|done].
  repeat case_decide; by intros [= <-].
Qed.

(** The order of the three lookups: the key that [find_agent] returns is
    the first of [key], [int(key)], [str(key)] that is in the registry. *)
Lemma find_agent_first_present self k k' :
  find_agent self k = Return (Some k') ->
  (k' = k /\ is_Some (agents self !! k)) \/
  (agents self !! k = None /\
   exists n, int_ k = Return n /\
     ((k' = KInt n /\ is_Some (agents self !! KInt n)) \/
      (agents self !! KInt n = None /\ k' = KStr (str_ k) /\
       is_Some (agents self !! KStr (str_ k))))).
Proof.
  unfold find_agent. case_decide as H1; [intros [= <-]; by left|].
  apply eq_None_not_Some in H1.
  destruct (int_ k) as [n|e]; [|done].
  case_decide as H2; [intros [= <-]; right; split; [done|]; exists n; eauto|].
  apply eq_None_not_Some in H2.
  case_decide as H3; [|done].
  intros [= <-]. right. split; [done|]. exists n. split; [done|]. by right.
Qed.

(** The same order, from the registry to the key that is found: the key as
    given when it is there; otherwise [int(key)] when that is there;
    otherwise [str(key)] when that is there. *)
Lemma find_agent_order self k :
  (is_Some (agents self !! k) -> find_agent self k = Return (Some k)) /\
  (forall n,
     agents self !! k = None -> int_ k = Return n ->
     is_Some (agents self !! KInt n) ->
     find_agent self k = Return (Some (KInt n))) /\
  (forall n,
     agents self !! k = None -> int_ k = Return n ->
     agents self !! KInt n = None ->
     is_Some (agents self !! KStr (str_ k)) ->
     find_agent self k = Return (Some (KStr (str_ k)))).
Proof.
  unfold find_agent. repeat split.
  - intros Hk. by rewrite decide_True.
  - intros n Hk Hint Hn.
    rewrite decide_False by (rewrite Hk; by intros [? [=]]).
    rewrite Hint. by rewrite decide_True.
  - intros n Hk Hint Hn Hs.
    rewrite decide_False by (rewrite Hk; by intros [? [=]]).
    rewrite Hint.
    rewrite decide_False by (rewrite Hn; by intros [? [=]]).
    by rewrite decide_True.
Qed.

Lemma message_agent_found self k k' message task hist model :
  find_agent self k = Return (Some k') ->
  agents self !! k' = Some (task, hist, model) ->
  message_agent llm self k message =
  (fst (message_turn llm (cfg self) model message hist),
   set_agents self
     (<[k' := (task, snd (message_turn llm (cfg self) model message hist), model)]>
        (agents self))).
Proof.
  intros Hf Hk. unfold message_agent. rewrite Hf, Hk.
  by destruct (message_turn llm _ _ _ _).
Qed.

(** A call that returns has found a record. *)
Lemma message_agent_return_found self k message reply self' :
  message_agent llm self k message = (Return reply, self') ->
  exists k' task hist model,
    find_agent self k = Return (Some k') /\
    agents self !! k' = Some (task, hist, model).
Proof.
  unfold message_agent.
  destruct (find_agent self k) as [[k'|]|e] eqn:Hf; [|done..].
  destruct (agents self !! k') as [[[task hist] model]|] eqn:Hk; [|done].
  intros _. by exists k', task, hist, model.
Qed.

End Turns.

(** ** A turn of [message_agent] that returns *)

Section Message.

Variable llm : string -> list Message -> Config -> result string.

(** Every phase of a call that returned, and the manager it leaves. *)
Lemma message_agent_return self k message reply self' :
  message_agent llm self k message = (Return reply, self') ->
  exists k' task hist model added agent_reply plugins_reply,
    let h0 := hist ++ [user_msg message] ++ added in
    let h1 := h0 ++ [assistant_msg agent_reply] in
    find_agent self k = Return (Some k') /\
    agents self !! k' = Some (task, hist, model) /\
    pre_loop (plugins (cfg self)) (hist ++ [user_msg message]) = (Return tt, h0) /\
    llm model h0 (cfg self) = Return agent_reply /\
    on_loop 0 (plugins (cfg self)) agent_reply h1 = (Return plugins_reply, h1) /\
    post_loop (plugins (cfg self)) agent_reply = Return reply /\
    self' = set_agents self
              (<[k' := (task, h1 ++ on_suffix plugins_reply, model)]> (agents self)).
Proof.
  intros H.
  destruct (message_agent_return_found _ _ _ _ _ _ H)
    as (k' & task & hist & model & Hf & Hk).
  rewrite (message_agent_found _ _ _ _ _ _ _ _ Hf Hk) in H.
  rewrite message_turn_phases in H.
  destruct (pre_loop _ _) as [[[]|e] h0] eqn:Hpre; [|by inversion H].
  destruct (pre_loop_extends _ _ _ _ Hpre) as [added ->].
  rewrite <- app_assoc in *.
  unfold after_pre in H.
  destruct (llm model _ (cfg self)) as [agent_reply|e] eqn:Hllm; [|by inversion H].
  destruct (on_loop 0 _ agent_reply _) as [[plugins_reply|e] h1'] eqn:Hon.
  2:{ cbn in H. by inversion H. }
  pose proof (on_loop_frame (plugins (cfg self)) 0 agent_reply
                (hist ++ [user_msg message] ++ added ++ [assistant_msg agent_reply]))
    as Hfr.
  rewrite <- !app_assoc in Hon. rewrite Hon in Hfr. cbn in Hfr. subst h1'.
  cbn in H. inversion H as [[Hreply Hself]].
  exists k', task, hist, model, added, agent_reply, plugins_reply.
  cbn zeta. rewrite <- !app_assoc. by repeat split.
Qed.


(** C2, as the code has it. A call of [message_agent] that returns ran the
    on-instruction loop with the raw reply of the backend as the initial
    aggregate, and the aggregate is appended as an assistant message exactly
    when it is not the empty string. When no plugin takes part in the
    on-instruction phase the aggregate is the seed. *)
Theorem message_agent_aggregate self k message reply self' :
  message_agent llm self k message = (Return reply, self') ->
  exists k' task model h0 agent_reply plugins_reply,
    let h1 := h0 ++ [assistant_msg agent_reply] in
    find_agent self k = Return (Some k') /\
    llm model h0 (cfg self) = Return agent_reply /\
    on_loop 0 (plugins (cfg self)) agent_reply h1 = (Return plugins_reply, h1) /\
    agents self' !! k' =
      Some (task,
            h1 ++ (if truthy plugins_reply
                   then [assistant_msg plugins_reply] else []),
            model) /\
    (Forall (fun p => can_handle_on_instruction p = false) (plugins (cfg self)) ->
     plugins_reply = agent_reply).
Proof.
  intros H.
  destruct (message_agent_return _ _ _ _ _ H)
    as (k' & task & hist & model & added & agent_reply & plugins_reply & Hall).
  cbn zeta in Hall.
  destruct Hall as (Hf & Hk & Hpre & Hllm & Hon & Hpost & ->).
  exists k', task, model, (hist ++ [user_msg message] ++ added),
    agent_reply, plugins_reply.
  cbn zeta. repeat split; try done.
  - cbn. rewrite lookup_insert_eq. unfold on_suffix.
    by rewrite worth_appending_truthy.
  - intros Hskip. rewrite on_loop_skip in Hon by done. by inversion Hon.
Qed.

(** C10. When the key resolves to a record and the pre-instruction loop
    has returned, a call of [message_agent] that raises leaves the user
    message and the messages of the pre-instruction loop in the history of
    the record; when it is the backend that raised, the history is exactly
    the old one followed by those messages. *)
Theorem message_agent_keeps_partial_turn
    self k k' message task hist model h0 e self' :
  find_agent self k = Return (Some k') ->
  agents self !! k' = Some (task, hist, model) ->
  pre_loop (plugins (cfg self)) (hist ++ [user_msg message]) = (Return tt, h0) ->
  message_agent llm self k message = (Raise e, self') ->
  exists added hist',
    h0 = hist ++ [user_msg message] ++ added /\
    agents self' !! k' = Some (task, hist', model) /\
    h0 `prefix_of` hist' /\
    hist' <> hist /\
    (llm model h0 (cfg self) = Raise e -> hist' = h0).
Proof.
  intros Hf Hk Hpre H.
  rewrite (message_agent_found _ _ _ _ _ _ _ _ Hf Hk) in H.
  rewrite message_turn_phases, Hpre in H.
  injection H as He <-.
  destruct (pre_loop_extends _ _ _ _ Hpre) as [added ->].
  rewrite <- app_assoc in *.
  exists added, (snd (after_pre llm (cfg self) model (fun r => r)
                        (post_loop (plugins (cfg self)))
                        (hist ++ [user_msg message] ++ added))).
  repeat split.
  - cbn. by rewrite lookup_insert_eq.
  - apply after_pre_prefix.
  - intros Heq.
    pose proof (after_pre_prefix llm (cfg self) model (fun r => r)
                  (post_loop (plugins (cfg self)))
                  (hist ++ [user_msg message] ++ added)) as Hp.
    rewrite Heq in Hp. apply prefix_length in Hp.
    rewrite !length_app in Hp. cbn in Hp. lia.
  - intros Hllm. unfold after_pre. by rewrite Hllm.
Qed.

(** C8. With a record under the integer key 7 and none under the string
    ["7"], the calls with ["7"] and with [7] resolve to the integer key; when
    the turn on that record returns, both calls return its reply and leave
    the same manager, in which the record under the integer key carries the
    new history. This is so because, for every manager and every key, the
    key is looked up as given, then as [int(key)], then as [str(key)], the
    first of the three that is in the registry is the one that is taken, and
    [message_agent] works on the record under that key and stores what the
    turn made of its history there. *)
Theorem message_agent_str_or_int_key
    self message task hist model reply hist' :
  agents self !! KInt 7 = Some (task, hist, model) ->
  agents self !! KStr "7" = None ->
  message_turn llm (cfg self) model message hist = (Return reply, hist') ->
  let self' :=
    set_agents self (<[KInt 7 := (task, hist', model)]> (agents self)) in
  (find_agent self (KStr "7") = Return (Some (KInt 7)) /\
   find_agent self (KInt 7) = Return (Some (KInt 7)) /\
   message_agent llm self (KStr "7") message = (Return reply, self') /\
   message_agent llm self (KInt 7) message = (Return reply, self')) /\
  (forall s k, is_Some (agents s !! k) -> find_agent s k = Return (Some k)) /\
  (forall s k n,
     agents s !! k = None -> int_ k = Return n ->
     is_Some (agents s !! KInt n) ->
     find_agent s k = Return (Some (KInt n))) /\
  (forall s k n,
     agents s !! k = None -> int_ k = Return n ->
     agents s !! KInt n = None ->
     is_Some (agents s !! KStr (str_ k)) ->
     find_agent s k = Return (Some (KStr (str_ k)))) /\
  (forall s k k' msg t h m,
     find_agent s k = Return (Some k') ->
     agents s !! k' = Some (t, h, m) ->
     message_agent llm s k msg
     = (fst (message_turn llm (cfg s) m msg h),
        set_agents s
          (<[k' := (t, snd (message_turn llm (cfg s) m msg h), m)]> (agents s)))).
Proof.
  intros Hint Hstr Hturn self'.
  destruct (find_agent_order self (KStr "7")) as (_ & Hs & _).
  specialize (Hs 7 Hstr eq_refl ltac:(eauto)).
  destruct (find_agent_order self (KInt 7)) as (Hi & _).
  specialize (Hi ltac:(eauto)).
  split; [|split; [|split; [|split]]].
  - repeat split; try done.
    + rewrite (message_agent_found _ _ _ _ _ _ _ _ Hs Hint). by rewrite Hturn.
    + rewrite (message_agent_found _ _ _ _ _ _ _ _ Hi Hint). by rewrite Hturn.
  - intros s k. apply find_agent_order.
  - intros s k. apply find_agent_order.
  - intros s k. apply find_agent_order.
  - intros s k k' msg t h m. apply message_agent_found.
Qed.

End Message.

(** ** [create_agent], [delete_agent] and the keys *)

Section Keys.

Variable llm : string -> list Message -> Config -> result string.

(** A call of [create_agent] either raises before the record is stored and
    changes nothing, or stores one record under [next_key] and moves the
    counter by one; the key it returns is the old [next_key]. *)
Lemma create_agent_outcome self task prompt model r self' :
  create_agent llm self task prompt model = (r, self') ->
  (self' = self /\ is_raise r = true) \/
  (exists messages, self' = stored self task model messages /\
     forall k reply, r = Return (k, reply) -> k = next_key self).
Proof.
  unfold create_agent.
  destruct (create_turn _ _ _ _) as [[agent_reply|e] messages].
  - destruct (post_loop _ _) as [reply|e]; intros [= <- <-]; right;
      exists messages; (split; [reflexivity|]); intros k r [=]; congruence.
  - intros [= <- <-]. by left.
Qed.

Lemma delete_agent_next_key self k :
  next_key (snd (delete_agent self k)) = next_key self.
Proof.
  unfold delete_agent. destruct (int_ k) as [n|e]; [|done].
  by destruct (agents self !! KInt n).
Qed.

Lemma step_keys self o ks self' :
  step llm self o = (ks, self') ->
  next_key self <= next_key self' /\
  Forall (fun k => next_key self <= k < next_key self') ks.
Proof.
  destruct o as [task prompt model|k]; cbn [step].
  - destruct (create_agent _ _ _ _ _) as [r s] eqn:Hc.
    destruct (create_agent_outcome _ _ _ _ _ _ Hc) as [[-> Hr]|[ms [-> Hk]]].
    + destruct r as [[k reply]|e]; [done|]. intros [= <- <-]. split; [lia|done].
    + destruct r as [[k reply]|e]; intros [= <- <-]; cbn; (split; [lia|]);
        [|done].
      rewrite (Hk k reply eq_refl). apply Forall_singleton. lia.
  - intros [= <- <-]. rewrite delete_agent_next_key. split; [lia|done].
Qed.

Lemma run_keys ops : forall self ks self',
  run llm self ops = (ks, self') ->
  next_key self <= next_key self' /\
  Forall (fun k => next_key self <= k < next_key self') ks /\
  StronglySorted Z.lt ks.
Proof.
  induction ops as [|o ops IH]; intros self ks self'; cbn [run].
  - intros [= <- <-]. split; [lia|]. split; constructor.
  - destruct (step llm self o) as [ks1 s1] eqn:Hs.
    destruct (run llm s1 ops) as [ks2 s2] eqn:Hr. intros [= <- <-].
    destruct (step_keys _ _ _ _ Hs) as [Hle1 Hks1].
    destruct (IH _ _ _ Hr) as (Hle2 & Hks2 & Hsorted).
    split; [lia|]. split.
    + apply Forall_app. split; eapply Forall_impl; eauto; cbn; lia.
    + destruct o as [task prompt model|k]; cbn [step] in Hs.
      * destruct (create_agent _ _ _ _ _) as [[[k reply]|e] s];
          injection Hs as <- <-; [|done].
        cbn. constructor; [done|].
        rewrite Forall_singleton in Hks1.
        eapply Forall_impl; [exact Hks2|]. cbn. lia.
      * by injection Hs as <- <-.
Qed.

Lemma run_app ops1 : forall self ops2,
  run llm self (ops1 ++ ops2) =
  let '(ks1, self1) := run llm self ops1 in
  let '(ks2, self2) := run llm self1 ops2 in
  (ks1 ++ ks2, self2).
Proof.
  induction ops1 as [|o ops1 IH]; intros self ops2; cbn [run app].
  - by destruct (run llm self ops2).
  - destruct (step llm self o) as [ks s]. rewrite IH.
    destruct (run llm s ops1) as [ks1 s1].
    destruct (run llm s1 ops2) as [ks2 s2]. by rewrite app_assoc.
Qed.

(** C4. From an empty registry, the keys that [create_agent] returns in a
    sequence of [create_agent] and [delete_agent] calls are strictly
    increasing, whatever was deleted in between; all of them are below
    [next_key], and [next_key] never goes down as the sequence goes on. *)
Theorem keys_strictly_increase c ops ops' :
  let '(keys, self) := run llm (init c ∅) ops in
  let '(keys', self') := run llm self ops' in
  StronglySorted Z.lt (keys ++ keys') /\
  Forall (fun k => 0 <= k < next_key self) keys /\
  Forall (fun k => next_key self <= k < next_key self') keys' /\
  0 <= next_key self <= next_key self'.
Proof.
  pose proof (run_app ops (init c ∅) ops') as Happ.
  destruct (run llm (init c ∅) ops) as [keys self] eqn:H1.
  destruct (run llm self ops') as [keys' self'] eqn:H2.
  destruct (run_keys _ _ _ _ H1) as (Hle1 & Hks1 & _).
  destruct (run_keys _ _ _ _ H2) as (Hle2 & Hks2 & _).
  destruct (run_keys _ _ _ _ Happ) as (_ & _ & Hsorted).
  change (next_key (init c ∅)) with 0 in *.
  by repeat split; try lia.
Qed.

(** C5. When the pre-instruction loop has returned and the call of the
    backend raises, [create_agent] raises the same exception and the manager
    is the one before the call: no record is stored and [next_key] keeps its
    value. *)
Theorem create_agent_backend_failure self task prompt model h0 e :
  pre_loop (plugins (cfg self)) [user_msg prompt] = (Return tt, h0) ->
  llm model h0 (cfg self) = Raise e ->
  create_agent llm self task prompt model = (Raise e, self).
Proof.
  intros Hpre Hllm. unfold create_agent. fold (user_msg prompt).
  rewrite create_turn_phases, Hpre. unfold after_pre. by rewrite Hllm.
Qed.

(** [delete_agent] with an integer key: the outcome tells whether the key
    was there, and a second call finds it gone. *)
Lemma delete_agent_int self n :
  delete_agent self (KInt n) =
  if decide (is_Some (agents self !! KInt n))
  then (Return true, set_agents self (delete (KInt n) (agents self)))
  else (Return false, self).
Proof.
  unfold delete_agent. cbn [int_].
  destruct (agents self !! KInt n) eqn:E.
  - by rewrite decide_True by eauto.
  - by rewrite decide_False by (by intros [? [=]]).
Qed.

Lemma delete_agent_twice self n :
  is_Some (agents self !! KInt n) ->
  let '(r1, self1) := delete_agent self (KInt n) in
  let '(r2, self2) := delete_agent self1 (KInt n) in
  r1 = Return true /\ r2 = Return false /\ self2 = self1 /\
  agents self1 !! KInt n = None.
Proof.
  intros Hn. rewrite delete_agent_int, decide_True by done.
  rewrite delete_agent_int. cbn [agents set_agents].
  assert (delete (KInt n) (agents self) !! KInt n = None) as Hgone
    by apply lookup_delete_eq.
  rewrite decide_False by (rewrite Hgone; by intros [? [=]]). done.
Qed.

(** As long as every integer key of the registry is below [next_key], the
    key that [create_agent] uses is not in the registry. *)
Lemma step_keys_below_next self o :
  keys_below_next self -> keys_below_next (snd (step llm self o)).
Proof.
  intros Hinv. destruct o as [task prompt model|k]; cbn [step].
  - destruct (create_agent _ _ _ _ _) as [r s] eqn:Hc.
    destruct (create_agent_outcome _ _ _ _ _ _ Hc) as [[-> Hr]|[ms [-> Hk]]].
    + by destruct r as [[]|].
    + assert (keys_below_next (stored self task model ms)) as Hst.
      { intros n. cbn. destruct (decide (n = next_key self)) as [->|Hne].
        - lia.
        - rewrite lookup_insert_ne by congruence.
          intros Hn. apply Hinv in Hn. lia. }
      by destruct r as [[]|].
  - unfold delete_agent. destruct (int_ k) as [n|e]; [|done].
    destruct (agents self !! KInt n) eqn:E; [|done].
    intros j. cbn. destruct (decide (j = n)) as [->|Hne].
    + rewrite lookup_delete_eq. by intros [? [=]].
    + rewrite lookup_delete_ne by congruence. apply Hinv.
Qed.

Lemma run_keys_below_next ops : forall self,
  keys_below_next self -> keys_below_next (snd (run llm self ops)).
Proof.
  induction ops as [|o ops IH]; intros self Hinv; cbn [run]; [done|].
  pose proof (step_keys_below_next self o Hinv) as Hs.
  destruct (step llm self o) as [ks s]. specialize (IH s Hs).
  by destruct (run llm s ops).
Qed.

Lemma create_agent_fresh_key self task prompt model k reply self' :
  keys_below_next self ->
  create_agent llm self task prompt model = (Return (k, reply), self') ->
  agents self !! KInt k = None.
Proof.
  intros Hinv Hc.
  destruct (create_agent_outcome _ _ _ _ _ _ Hc) as [[_ [=]]|[ms [_ Hk]]].
  rewrite (Hk k reply eq_refl).
  destruct (agents self !! KInt (next_key self)) eqn:E; [|done].
  assert (next_key self < next_key self) by (apply Hinv; eauto). lia.
Qed.

End Keys.

(** ** The counter and a registry given at construction *)

Lemma create_agent_plain reply self task prompt model :
  plugins (cfg self) = [] ->
  create_agent (always reply) self task prompt model =
  (Return (next_key self, reply),
   stored self task model [user_msg prompt; assistant_msg reply]).
Proof. destruct self as [nk [ps] ags]. cbn. by intros ->. Qed.

Lemma run_creates_plain reply task prompt model n rec count : forall self,
  plugins (cfg self) = [] ->
  next_key self + Z.of_nat count <= n ->
  agents self !! KInt n = Some rec ->
  let self' :=
    snd (run (always reply) self (replicate count (OpCreate task prompt model))) in
  next_key self' = next_key self + Z.of_nat count /\
  plugins (cfg self') = [] /\
  agents self' !! KInt n = Some rec.
Proof.
  induction count as [|count IH]; intros self Hp Hn Hrec; cbn zeta.
  - cbn. split; [lia|done].
  - cbn [replicate run step]. rewrite create_agent_plain by done.
    set (s := stored _ _ _ _).
    specialize (IH s Hp).
    destruct (run (always reply) s _) as [ks s'] eqn:Hr. cbn [snd] in *.
    destruct IH as (Hk & Hp' & Hrec').
    + subst s. cbn. lia.
    + subst s. cbn. rewrite lookup_insert_ne; [done|]. intros [= ?]. lia.
    + subst s. cbn in Hk. split; [lia|done].
Qed.

(** C9. [next_key] starts at the number of entries of the registry given
    at construction. When that registry has an integer key [n] that is not
    below its size, a run of [create_agent] calls that all return reaches a
    manager in which the old record is still under [n] and whose next
    [create_agent] returns [n] and puts a new record in its place. *)
Theorem next_key_starts_at_size c ags n rec :
  ags !! KInt n = Some rec ->
  Z.of_nat (size ags) <= n ->
  next_key (init c ags) = Z.of_nat (size ags) /\
  let earlier :=
    replicate (Z.to_nat (n - Z.of_nat (size ags))) (OpCreate "t" "p" "m") in
  let self := snd (run (always "Hi") (init no_plugins ags) earlier) in
  let new := [user_msg "prompt"; assistant_msg "Hi"] in
  agents self !! KInt n = Some rec /\
  create_agent (always "Hi") self "task" "prompt" "model"
    = (Return (n, "Hi"), stored self "task" "model" new) /\
  agents (stored self "task" "model" new) !! KInt n = Some ("task", new, "model").
Proof.
  intros Hrec Hsize. split; [reflexivity|]. cbn zeta.
  destruct (run_creates_plain "Hi" "t" "p" "m" n rec
              (Z.to_nat (n - Z.of_nat (size ags))) (init no_plugins ags))
    as (Hk & Hp & Hrec'); [done|cbn; lia|done|].
  cbn zeta in *. cbn [init next_key] in Hk.
  set (self := snd (run _ _ _)) in *.
  assert (next_key self = n) as Hn by lia.
  rewrite create_agent_plain by done. rewrite <- Hn at 2.
  repeat split; [done|].
  unfold stored. cbn. rewrite Hn. by rewrite lookup_insert_eq.
Qed.

Lemma next_key_starts_at_size_witness :
  next_key five_only = 1 /\
  fst (run (always "Hi") five_only (replicate 4 (OpCreate "t" "p" "m")))
    = [1; 2; 3; 4] /\
  let self := snd (run (always "Hi") five_only (replicate 4 (OpCreate "t" "p" "m"))) in
  agents self !! KInt 5 = Some a_task_of_old /\
  fst (create_agent (always "Hi") self "task" "prompt" "model") = Return (5, "Hi") /\
  agents (snd (create_agent (always "Hi") self "task" "prompt" "model")) !! KInt 5
    = Some ("task", [user_msg "prompt"; assistant_msg "Hi"], "model").
Proof.
  destruct (next_key_starts_at_size no_plugins {[ KInt 5 := a_task_of_old ]}
              5 a_task_of_old) as (H0 & H1 & H2 & H3).
  - reflexivity.
  - vm_compute. discriminate.
  - split; [exact H0|]. split; [reflexivity|].
    cbn zeta in *. split; [exact H1|]. split.
    + exact (f_equal fst H2).
    + exact (eq_trans (f_equal (fun p => agents (snd p) !! KInt 5) H2) H3).
Defined.

(** ** Keys that resolve to nothing *)

(** When none of the three forms of the key is in the registry,
    [message_agent] raises what [int(key)] raised or, when [int(key)]
    returned, the [UnboundLocalError] of line 95; the manager is unchanged. *)
Lemma message_agent_unresolved llm self k message :
  agents self !! k = None ->
  (forall n, int_ k = Return n -> agents self !! KInt n = None) ->
  agents self !! KStr (str_ k) = None ->
  message_agent llm self k message =
  (Raise (match int_ k with Raise e => e | Return _ => UnboundLocalError end),
   self).
Proof.
  intros Hk Hint Hstr. unfold message_agent, find_agent.
  rewrite decide_False by (rewrite Hk; by intros [? [=]]).
  destruct (int_ k) as [n|e]; [|done].
  rewrite decide_False by (rewrite (Hint n eq_refl); by intros [? [=]]).
  by rewrite decide_False by (rewrite Hstr; by intros [? [=]]).
Qed.

(** C1, on the code. On an empty registry the call with the key [7] raises
    [UnboundLocalError] and the call with the key ["abc"] raises
    [ValueError]; neither is an exception of a class [SessionNotFound]. *)
Theorem message_agent_unknown_key :
  message_agent (always "Hi") (init no_plugins ∅) (KInt 7) "hello"
    = (Raise UnboundLocalError, init no_plugins ∅) /\
  message_agent (always "Hi") (init no_plugins ∅) (KStr "abc") "hello"
    = (Raise ValueError, init no_plugins ∅) /\
  UnboundLocalError <> Other "SessionNotFound" /\
  ValueError <> Other "SessionNotFound".
Proof. repeat split; (reflexivity || discriminate). Qed.

(** C6, on the code. [delete_agent] with the key ["abc"] raises
    [ValueError]: the conversion [int(key)] fails and only [KeyError] is
    caught. *)
Theorem delete_agent_non_numeric_key :
  delete_agent one_agent (KStr "abc") = (Raise ValueError, one_agent).
Proof. reflexivity. Qed.

(** [delete_agent] raises exactly when [int(key)] does. *)
Lemma delete_agent_raises self k :
  is_raise (fst (delete_agent self k)) = is_raise (int_ k).
Proof.
  unfold delete_agent. destruct (int_ k) as [n|e]; [|done].
  by destruct (agents self !! KInt n).
Qed.

(** ** The separator of the on-instruction loop *)

(** The separator goes by the position of the plugin: when the plugins in
    front of the first contributor take no part, its contribution still gets
    a newline in front unless it is the plugin at position 0. *)
Lemma on_loop_late_contribution ps : forall i s ms p a,
  Forall (fun q => can_handle_on_instruction q = false) ps ->
  can_handle_on_instruction p = true ->
  on_instruction p ms = Return a ->
  truthy a = true ->
  on_loop i (ps ++ [p]) s ms =
  (Return (s +:+ match (i + List.length ps)%nat with O => "" | S _ => newline end
             +:+ a), ms).
Proof.
  induction ps as [|q ps IH]; intros i s ms p a Hps Hp Ha Hta.
  - cbn [app List.length]. rewrite on_loop_cons, Hp, Ha, Hta.
    by rewrite Nat.add_0_r.
  - inversion Hps as [|? ? Hq Hps']; subst.
    cbn [app List.length]. rewrite on_loop_cons, Hq.
    rewrite (IH (S i) s ms p a) by done.
    by rewrite Nat.add_succ_r.
Qed.

(** C3, on the code. With two plugins of which only the second takes part
    in the on-instruction phase and returns ["A"], [create_agent] stores the
    aggregate with a newline in front of the ["A"]. *)
Theorem create_agent_leading_newline :
  create_agent (always "Hi") (init (mkConfig [silent; says "A"]) ∅) "t" "p" "m"
  = (Return (0, "Hi"),
     {| next_key := 1;
        cfg := mkConfig [silent; says "A"];
        agents :=
          {[ KInt 0 :=
               ("t",
                [user_msg "p"; assistant_msg "Hi";
                 assistant_msg (newline +:+ "A")],
                "m") ]} |}).
Proof. reflexivity. Qed.

(** When both plugins take part and sit at the positions 0 and 1, the
    aggregate is the one the contributions joined by a newline. *)
Example create_agent_two_contributions :
  fst (on_loop 0 [says "A"; says "B"] "" [user_msg "p"; assistant_msg "Hi"])
    = Return ("A" +:+ newline +:+ "B") /\
  fst (on_loop 0 [says "A"] "" [user_msg "p"; assistant_msg "Hi"]) = Return "A" /\
  fst (on_loop 0 [silent; says "A"; says "B"] "" [user_msg "p"; assistant_msg "Hi"])
    = Return (newline +:+ "A" +:+ newline +:+ "B").
Proof. repeat split; reflexivity. Qed.

(** ** The aggregate of [message_agent] when no plugin takes part *)

(** C2, as stated, fails. Without plugins and with a backend that answers
    ["Hi"], the aggregate of the on-instruction loop is its seed ["Hi"], and
    it is appended all the same: the call returns and the history ends with
    two assistant messages ["Hi"]. *)
Lemma aggregate_equal_to_seed_appended :
  let h1 := [user_msg "ping"; assistant_msg "Hi"] in
  let self' := snd (message_agent (always "Hi") one_agent (KInt 0) "ping") in
  fst (message_agent (always "Hi") one_agent (KInt 0) "ping") = Return "Hi" /\
  fst (on_loop 0 (plugins (cfg one_agent)) "Hi" h1) = Return "Hi" /\
  ~ (agents self' !! KInt 0 = Some ("t", h1 ++ [assistant_msg "Hi"], "m")
     <-> "Hi" <> "Hi").
Proof.
  cbn zeta. split; [reflexivity|]. split; [reflexivity|].
  intros [Happ _]. by apply Happ.
Qed.

(** ** The general statements at concrete managers *)

(** A turn with a plugin in the pre-instruction phase and another in the
    on-instruction phase, by evaluation. *)
Example message_agent_helped :
  message_agent (always "Hi") helped_agent (KStr "0") "ping"
  = (Return "Hi",
     set_agents helped_agent
       {[ KInt 0 :=
            ("t",
             [user_msg "p"; assistant_msg "r"; user_msg "ping";
              mkMessage "system" "be brief"; assistant_msg "Hi";
              assistant_msg ("Hi" +:+ newline +:+ "A")],
             "m") ]}).
Proof. reflexivity. Qed.


Lemma message_agent_aggregate_witness :
  exists k' task model h0 agent_reply plugins_reply,
    let h1 := h0 ++ [assistant_msg agent_reply] in
    find_agent one_agent (KInt 0) = Return (Some k') /\
    always "Hi" model h0 (cfg one_agent) = Return agent_reply /\
    on_loop 0 (plugins (cfg one_agent)) agent_reply h1 = (Return plugins_reply, h1) /\
    agents (snd (message_agent (always "Hi") one_agent (KInt 0) "ping")) !! k' =
      Some (task,
            h1 ++ (if truthy plugins_reply
                   then [assistant_msg plugins_reply] else []),
            model) /\
    (Forall (fun p => can_handle_on_instruction p = false)
       (plugins (cfg one_agent)) ->
     plugins_reply = agent_reply).
Proof.
  exact (message_agent_aggregate (always "Hi") one_agent (KInt 0) "ping" "Hi"
           (snd (message_agent (always "Hi") one_agent (KInt 0) "ping"))
           eq_refl).
Defined.

Lemma message_agent_keeps_partial_turn_witness :
  fst (message_agent failing one_agent (KInt 0) "ping")
    = Raise (Other "BackendError") /\
  exists added hist',
    [user_msg "ping"] = [] ++ [user_msg "ping"] ++ added /\
    agents (snd (message_agent failing one_agent (KInt 0) "ping")) !! KInt 0
      = Some ("t", hist', "m") /\
    [user_msg "ping"] `prefix_of` hist' /\
    hist' <> [] /\
    (failing "m" [user_msg "ping"] (cfg one_agent) = Raise (Other "BackendError")
     -> hist' = [user_msg "ping"]).
Proof.
  split; [reflexivity|].
  exact (message_agent_keeps_partial_turn failing one_agent (KInt 0) (KInt 0)
           "ping" "t" [] "m" [user_msg "ping"] (Other "BackendError")
           (snd (message_agent failing one_agent (KInt 0) "ping"))
           eq_refl eq_refl eq_refl eq_refl).
Defined.

Lemma message_agent_str_or_int_key_witness :
  let self' :=
    set_agents seven_only
      (<[KInt 7 := ("t", [user_msg "ping"; assistant_msg "Hi"; assistant_msg "Hi"],
                    "m")]> (agents seven_only)) in
  (find_agent seven_only (KStr "7") = Return (Some (KInt 7)) /\
   find_agent seven_only (KInt 7) = Return (Some (KInt 7)) /\
   message_agent (always "Hi") seven_only (KStr "7") "ping" = (Return "Hi", self') /\
   message_agent (always "Hi") seven_only (KInt 7) "ping" = (Return "Hi", self')) /\
  find_agent both_sevens (KStr "7") = Return (Some (KStr "7")) /\
  find_agent both_sevens (KInt 7) = Return (Some (KInt 7)) /\
  find_agent named_agent (KStr "abc") = Return (Some (KStr "abc")) /\
  find_agent seven_as_string (KInt 7) = Return (Some (KStr "7")) /\
  message_agent (always "Hi") seven_as_string (KInt 7) "ping"
  = (Return "Hi",
     set_agents seven_as_string
       (<[KStr "7" := ("s", [user_msg "ping"; assistant_msg "Hi";
                             assistant_msg "Hi"], "m")]>
          (agents seven_as_string))).
Proof.
  destruct (message_agent_str_or_int_key (always "Hi") seven_only "ping" "t" []
              "m" "Hi" [user_msg "ping"; assistant_msg "Hi"; assistant_msg "Hi"]
              eq_refl eq_refl eq_refl)
    as (Hseven & Hgiven & Hint & Hstr & Hrecord).
  split; [exact Hseven|].
  split; [apply Hgiven; by exists ("b", [], "m")|].
  split; [apply Hgiven; by exists ("a", [], "m")|].
  split; [apply Hgiven; by exists ("n", [], "m")|].
  assert (find_agent seven_as_string (KInt 7) = Return (Some (KStr "7"))) as Hf.
  { apply (Hstr seven_as_string (KInt 7) 7);
      [reflexivity|reflexivity|reflexivity|by exists ("s", [], "m")]. }
  split; [exact Hf|].
  exact (Hrecord seven_as_string (KInt 7) (KStr "7") "ping" "s" [] "m" Hf eq_refl).
Defined.

Lemma create_agent_backend_failure_witness :
  create_agent failing one_agent "task" "prompt" "model"
  = (Raise (Other "BackendError"), one_agent).
Proof.
  exact (create_agent_backend_failure failing one_agent "task" "prompt" "model"
           [user_msg "prompt"] (Other "BackendError") eq_refl eq_refl).
Defined.

(** * Further properties of the manager *)

(** ** The plugin loops *)

Lemma append_cons a (s1 s2 : string) : String a s1 +:+ s2 = String a (s1 +:+ s2).
Proof. reflexivity. Qed.

Lemma append_assoc (s1 s2 s3 : string) : (s1 +:+ s2) +:+ s3 = s1 +:+ s2 +:+ s3.
Proof. induction s1 as [|a s1 IH]; [done|]. rewrite !append_cons. by f_equal. Qed.

Lemma append_nil_r (s : string) : s +:+ "" = s.
Proof. induction s as [|a s IH]; [done|]. rewrite append_cons. by f_equal. Qed.

(** X1. The pre-instruction and the post-instruction loop do the same with
    and without the plugins that do not take part in the phase: such a
    plugin is never called and leaves no trace. (The on-instruction loop is
    different: there the position of a plugin chooses the separator.) *)
Theorem idle_plugins_do_not_matter ps ms r :
  pre_loop ps ms = pre_loop (List.filter can_handle_pre_instruction ps) ms /\
  post_loop ps r = post_loop (List.filter can_handle_post_instruction ps) r.
Proof.
  split.
  - revert ms. induction ps as [|p ps IH]; intros ms; [done|].
    cbn [List.filter]. rewrite pre_loop_cons.
    destruct (can_handle_pre_instruction p) eqn:Hp; [|apply IH].
    rewrite pre_loop_cons, Hp.
    destruct (pre_instruction p ms); [apply IH|done].
  - revert r. induction ps as [|p ps IH]; intros r; [done|].
    cbn [List.filter post_loop].
    destruct (can_handle_post_instruction p) eqn:Hp; [|apply IH].
    cbn [post_loop]. rewrite Hp.
    destruct (post_instruction p r); [apply IH|done].
Qed.

(** X2. The three loops run through a list of plugins from left to right:
    on [ps1 ++ ps2] each loop is the loop on [ps1] followed, unless that one
    raised, by the loop on [ps2], which starts from the messages, the reply
    or the aggregate that [ps1] left and, in the on-instruction loop, counts
    positions on from the length of [ps1]. *)
Theorem loops_run_left_to_right ps1 ps2 ms r i s :
  pre_loop (ps1 ++ ps2) ms =
    match pre_loop ps1 ms with
    | (Return _, ms') => pre_loop ps2 ms'
    | (Raise e, ms') => (Raise e, ms')
    end /\
  post_loop (ps1 ++ ps2) r =
    match post_loop ps1 r with
    | Return r' => post_loop ps2 r'
    | Raise e => Raise e
    end /\
  on_loop i (ps1 ++ ps2) s ms =
    match on_loop i ps1 s ms with
    | (Return s', _) => on_loop (i + List.length ps1) ps2 s' ms
    | (Raise e, ms') => (Raise e, ms')
    end.
Proof.
  repeat split.
  - revert ms. induction ps1 as [|p ps1 IH]; intros ms; [done|].
    cbn [app]. rewrite !pre_loop_cons.
    destruct (can_handle_pre_instruction p); [|apply IH].
    destruct (pre_instruction p ms); [apply IH|done].
  - revert r. induction ps1 as [|p ps1 IH]; intros r; [done|].
    cbn [app post_loop].
    destruct (can_handle_post_instruction p); [|apply IH].
    destruct (post_instruction p r); [apply IH|done].
  - revert i s. induction ps1 as [|p ps1 IH]; intros i s.
    { cbn. by rewrite Nat.add_0_r. }
    cbn [app List.length]. rewrite !on_loop_cons.
    replace (i + S (List.length ps1))%nat with (S i + List.length ps1)%nat by lia.
    destruct (can_handle_on_instruction p); [|apply IH].
    destruct (on_instruction p ms) as [pr|e]; [|done].
    destruct (truthy pr); apply IH.
Qed.

Lemma concat_empty_cons (x : string) xs :
  String.concat "" (x :: xs) = x +:+ String.concat "" xs.
Proof. destruct xs; [symmetry; apply append_nil_r|reflexivity]. Qed.

Lemma concat_newline_cons (r : string) rs :
  String.concat newline (r :: rs)
  = r +:+ String.concat "" (map (fun r' => newline +:+ r') rs).
Proof.
  revert r. induction rs as [|r' rs IH]; intros r.
  - symmetry. apply append_nil_r.
  - change (String.concat newline (r :: r' :: rs))
      with (r +:+ newline +:+ String.concat newline (r' :: rs)).
    rewrite IH. cbn [map]. by rewrite concat_empty_cons, append_assoc.
Qed.

(** The aggregate of the plugins behind position 0 when each of them
    contributes: every contribution with a newline in front. *)
Lemma on_loop_all_contribute_later ps : forall rs i s ms,
  Forall2 (fun p r => can_handle_on_instruction p = true /\
                      on_instruction p ms = Return r /\ truthy r = true) ps rs ->
  on_loop (S i) ps s ms =
  (Return (s +:+ String.concat "" (map (fun r => newline +:+ r) rs)), ms).
Proof.
  induction ps as [|p ps IH]; intros rs i s ms H.
  - inversion H; subst. cbn. by rewrite append_nil_r.
  - inversion H as [|? r ? rs' (Hp & Hr & Ht) Hrest]; subst.
    rewrite on_loop_cons, Hp, Hr, Ht. rewrite (IH rs') by done.
    cbn [map]. by rewrite concat_empty_cons, !append_assoc.
Qed.

(** X3. When every plugin of the list takes part in the on-instruction
    phase and returns a non-empty string, the aggregate is the seed followed
    by the contributions joined with newlines. *)
Theorem on_loop_joins_contributions ps rs seed ms :
  Forall2 (fun p r => can_handle_on_instruction p = true /\
                      on_instruction p ms = Return r /\ truthy r = true) ps rs ->
  on_loop 0 ps seed ms = (Return (seed +:+ String.concat newline rs), ms).
Proof.
  intros H. destruct H as [|p r ps rs (Hp & Hr & Ht) Hrest].
  - cbn. by rewrite append_nil_r.
  - rewrite on_loop_cons, Hp, Hr, Ht.
    rewrite (on_loop_all_contribute_later ps rs) by done.
    rewrite concat_newline_cons.
    change (seed +:+ "" +:+ r) with (seed +:+ r). by rewrite append_assoc.
Qed.

Lemma on_loop_joins_contributions_witness :
  on_loop 0 [says "A"; says "B"; says "C"] "seed:" []
  = (Return ("seed:" +:+ String.concat newline ["A"; "B"; "C"]), []).
Proof.
  apply (on_loop_joins_contributions [says "A"; says "B"; says "C"]
           ["A"; "B"; "C"] "seed:" []).
  repeat constructor.
Defined.

(** ** What [create_agent] stores and returns *)

Section Create.

Variable llm : string -> list Message -> Config -> result string.


(** X5. A call of [create_agent] that raises has left the manager as it
    was when the exception came out of the pre-instruction loop, the backend
    or the on-instruction loop; when it came out of the post-instruction
    loop, the record is stored and the counter has moved although no key was
    returned. *)
Theorem create_agent_raise self task prompt model e self' :
  create_agent llm self task prompt model = (Raise e, self') ->
  (self' = self /\
   fst (create_turn llm (cfg self) model [user_msg prompt]) = Raise e) \/
  (exists agent_reply messages,
     create_turn llm (cfg self) model [user_msg prompt]
       = (Return agent_reply, messages) /\
     post_loop (plugins (cfg self)) agent_reply = Raise e /\
     self' = stored self task model messages /\
     agents self' !! KInt (next_key self) = Some (task, messages, model) /\
     next_key self' = next_key self + 1).
Proof.
  unfold create_agent. fold (user_msg prompt).
  destruct (create_turn _ _ _ _) as [[agent_reply|e'] messages].
  - destruct (post_loop _ agent_reply) as [reply|e'] eqn:Hpost; intros [= <- <-].
    right. exists agent_reply, messages. repeat split; try done.
    cbn. by rewrite lookup_insert_eq.
  - intros [= <- <-]. by left.
Qed.

End Create.


Lemma create_agent_raise_witness :
  fst (create_agent (always "Hi") broken_post "t" "Hello" "m")
    = Raise (Other "PluginError") /\
  agents (snd (create_agent (always "Hi") broken_post "t" "Hello" "m")) !! KInt 0
    = Some ("t", [user_msg "Hello"; assistant_msg "Hi"], "m") /\
  next_key (snd (create_agent (always "Hi") broken_post "t" "Hello" "m")) = 1.
Proof.
  destruct (create_agent_raise (always "Hi") broken_post "t" "Hello" "m"
              (Other "PluginError")
              (snd (create_agent (always "Hi") broken_post "t" "Hello" "m"))
              eq_refl) as [[Hsame _]|(r & ms & Hturn & _ & _ & Hrec & Hnext)].
  - discriminate (f_equal next_key Hsame).
  - injection Hturn as <- <-. split; [reflexivity|]. split; [exact Hrec|exact Hnext].
Defined.

(** ** What [message_agent] never does *)

Section MessageFrame.

Variable llm : string -> list Message -> Config -> result string.

(** Whatever the turn does, the list it was given and the user message are
    still there, in front. *)
Lemma message_turn_prefix c model message hist :
  exists rest,
    snd (message_turn llm c model message hist) = hist ++ user_msg message :: rest.
Proof.
  rewrite message_turn_phases.
  destruct (pre_loop _ _) as [[[]|e] h0] eqn:Hpre;
    destruct (pre_loop_extends _ _ _ _ Hpre) as [added ->].
  - destruct (after_pre_prefix llm c model (fun r => r) (post_loop (plugins c))
                ((hist ++ [user_msg message]) ++ added)) as [more ->].
    exists (added ++ more). by rewrite <- !app_assoc.
  - exists added. cbn [snd]. by rewrite <- app_assoc.
Qed.

(** What [message_agent] leaves alone, whether it returns or raises. *)
Lemma message_agent_changes self k message :
  let self' := snd (message_agent llm self k message) in
  next_key self' = next_key self /\
  cfg self' = cfg self /\
  dom (agents self') = dom (agents self) /\
  forall j task hist model,
    agents self !! j = Some (task, hist, model) ->
    exists hist', agents self' !! j = Some (task, hist', model) /\
                  hist `prefix_of` hist'.
Proof.
  cbn zeta. unfold message_agent.
  destruct (find_agent self k) as [[k'|]|e] eqn:Hf;
    [|repeat split; eauto..].
  destruct (agents self !! k') as [[[task0 hist0] model0]|] eqn:Hk;
    [|repeat split; eauto].
  destruct (message_turn_prefix (cfg self) model0 message hist0) as [rest Hrest].
  destruct (message_turn llm _ _ _ _) as [r hist0']. cbn [snd] in *. subst hist0'.
  cbn [agents set_agents next_key cfg].
  repeat split.
  - apply dom_insert_lookup_L. eauto.
  - intros j task hist model Hj. destruct (decide (j = k')) as [->|Hne].
    + rewrite Hk in Hj. injection Hj as -> -> ->.
      eexists. rewrite lookup_insert_eq. split; [done|]. by apply prefix_app_r.
    + exists hist. by rewrite lookup_insert_ne.
Qed.

(** X6. Whether it returns or raises, [message_agent] leaves the counter
    and the configuration alone, adds no key to the registry and removes
    none, and keeps the task and the model of every record; the history of a
    record after the call starts with the history before the call. *)
Theorem message_agent_frame self k message :
  let self' := snd (message_agent llm self k message) in
  next_key self' = next_key self /\
  cfg self' = cfg self /\
  dom (agents self') = dom (agents self) /\
  forall j task hist model,
    agents self !! j = Some (task, hist, model) ->
    exists hist', agents self' !! j = Some (task, hist', model) /\
                  hist `prefix_of` hist'.
Proof. apply message_agent_changes. Qed.

(** X7. Once the key has resolved to a record, the user message is in the
    history of that record after the call, right behind the old history,
    whatever happens later in the turn: also when a plugin of the
    pre-instruction loop raises. *)
Theorem message_agent_records_user_message
    self k k' message task hist model :
  find_agent self k = Return (Some k') ->
  agents self !! k' = Some (task, hist, model) ->
  exists rest,
    agents (snd (message_agent llm self k message)) !! k'
    = Some (task, hist ++ user_msg message :: rest, model).
Proof.
  intros Hf Hk. rewrite (message_agent_found _ _ _ _ _ _ _ _ Hf Hk). cbn [snd].
  destruct (message_turn_prefix (cfg self) model message hist) as [rest ->].
  exists rest. cbn. by rewrite lookup_insert_eq.
Qed.

End MessageFrame.

Lemma message_agent_records_user_message_witness :
  fst (message_agent (always "Hi") refused_agent (KInt 0) "ping")
    = Raise (Other "PluginError") /\
  exists rest,
    agents (snd (message_agent (always "Hi") refused_agent (KInt 0) "ping"))
      !! KInt 0
    = Some ("t", [] ++ user_msg "ping" :: rest, "m").
Proof.
  split; [reflexivity|].
  exact (message_agent_records_user_message (always "Hi") refused_agent
           (KInt 0) (KInt 0) "ping" "t" [] "m" eq_refl eq_refl).
Defined.

(** ** What [delete_agent] removes *)

Lemma set_agents_same self : set_agents self (agents self) = self.
Proof. by destruct self. Qed.

(** What [delete_agent] returns and leaves when [int(key)] returns. *)
Lemma delete_agent_changes self k n :
  int_ k = Return n ->
  let self' := snd (delete_agent self k) in
  fst (delete_agent self k)
    = Return (bool_decide (is_Some (agents self !! KInt n))) /\
  agents self' = delete (KInt n) (agents self) /\
  agents self' !! KInt n = None /\
  (forall j, j <> KInt n -> agents self' !! j = agents self !! j) /\
  (forall s, agents self' !! KStr s = agents self !! KStr s) /\
  next_key self' = next_key self /\ cfg self' = cfg self.
Proof.
  intros Hint. cbn zeta. unfold delete_agent. rewrite Hint.
  destruct (agents self !! KInt n) as [rec|] eqn:Hn; cbn [fst snd].
  - rewrite bool_decide_eq_true_2 by eauto. cbn [agents set_agents next_key cfg].
    repeat split.
    + apply lookup_delete_eq.
    + intros j Hj. by apply lookup_delete_ne.
    + intros s. by apply lookup_delete_ne.
  - rewrite bool_decide_eq_false_2 by (by intros [? [=]]).
    rewrite delete_id by done. repeat split; done.
Qed.

(** X8. When [int(key)] returns [n], [delete_agent] returns whether the
    integer key [n] was in the registry and leaves the registry without it.
    Nothing else changes: the other keys keep their records, among them every
    string key, also the string that was given as [key]; the counter and the
    configuration stay. *)
Theorem delete_agent_effect self k n :
  int_ k = Return n ->
  let self' := snd (delete_agent self k) in
  fst (delete_agent self k)
    = Return (bool_decide (is_Some (agents self !! KInt n))) /\
  agents self' = delete (KInt n) (agents self) /\
  agents self' !! KInt n = None /\
  (forall j, j <> KInt n -> agents self' !! j = agents self !! j) /\
  (forall s, agents self' !! KStr s = agents self !! KStr s) /\
  next_key self' = next_key self /\ cfg self' = cfg self.
Proof. apply delete_agent_changes. Qed.

Lemma delete_agent_effect_witness :
  let self := init no_plugins {[ KInt 7 := ("a", [], "m"); KStr "7" := ("b", [], "m") ]} in
  let self' := snd (delete_agent self (KStr " 7 ")) in
  fst (delete_agent self (KStr " 7 "))
    = Return (bool_decide (is_Some (agents self !! KInt 7))) /\
  agents self' = delete (KInt 7) (agents self) /\
  agents self' !! KInt 7 = None /\
  (forall j, j <> KInt 7 -> agents self' !! j = agents self !! j) /\
  (forall s, agents self' !! KStr s = agents self !! KStr s) /\
  next_key self' = next_key self /\ cfg self' = cfg self.
Proof.
  exact (delete_agent_effect
           (init no_plugins {[ KInt 7 := ("a", [], "m"); KStr "7" := ("b", [], "m") ]})
           (KStr " 7 ") 7 eq_refl).
Defined.

(** X9. Deleting twice: when [int(key)] returns [n] and the integer key [n]
    is in the registry, the first [delete_agent] returns [True] and the second
    one [False], and the second one changes nothing. *)
Theorem delete_agent_then_again self k n :
  int_ k = Return n ->
  is_Some (agents self !! KInt n) ->
  let self1 := snd (delete_agent self k) in
  fst (delete_agent self k) = Return true /\
  delete_agent self1 k = (Return false, self1).
Proof.
  intros Hint Hn. cbn zeta.
  destruct (delete_agent_changes self k n Hint) as (Hr & _ & Hgone & _).
  cbn zeta in *. rewrite bool_decide_eq_true_2 in Hr by done.
  split; [done|].
  unfold delete_agent at 1. by rewrite Hint, Hgone.
Qed.

Lemma delete_agent_then_again_witness :
  fst (delete_agent seven_only (KStr "7")) = Return true /\
  delete_agent (snd (delete_agent seven_only (KStr "7"))) (KStr "7")
  = (Return false, snd (delete_agent seven_only (KStr "7"))).
Proof.
  apply (delete_agent_then_again seven_only (KStr "7") 7 eq_refl).
  vm_compute. eauto.
Defined.

(** X10. A deleted agent is not found again: after [delete_agent] with an
    integer key, [message_agent] with that key raises [UnboundLocalError] and
    changes nothing, provided the registry has no record under the decimal
    string of the key. *)
Theorem message_agent_after_delete llm self n message :
  agents self !! KStr (str_of_int n) = None ->
  let self1 := snd (delete_agent self (KInt n)) in
  message_agent llm self1 (KInt n) message = (Raise UnboundLocalError, self1).
Proof.
  intros Hstr. cbn zeta.
  destruct (delete_agent_changes self (KInt n) n eq_refl)
    as (_ & _ & Hgone & _ & Hs & _).
  cbn zeta in *.
  rewrite (message_agent_unresolved llm _ (KInt n) message); [done|done| |].
  - intros m [= <-]. done.
  - cbn [str_]. by rewrite Hs.
Qed.

Lemma message_agent_after_delete_witness :
  message_agent (always "Hi") (snd (delete_agent seven_only (KInt 7))) (KInt 7) "ping"
  = (Raise UnboundLocalError, snd (delete_agent seven_only (KInt 7))).
Proof.
  exact (message_agent_after_delete (always "Hi") seven_only 7 "ping" eq_refl).
Defined.

(** ** An integer key and its decimal string *)

Lemma pretty_N_char_digit x :
  (x < 10)%N ->
  digit_val (pretty_N_char x) = Some (Z.of_N x) /\
  is_space (pretty_N_char x) = false.
Proof.
  intros Hx.
  assert (x = 0 \/ x = 1 \/ x = 2 \/ x = 3 \/ x = 4 \/ x = 5 \/ x = 6 \/ x = 7
          \/ x = 8 \/ x = 9)%N as Hcases by lia.
  repeat (destruct Hcases as [->|Hcases]; [by split|]). subst. by split.
Qed.

Lemma digits_digit a acc l d :
  digit_val a = Some d -> digits acc (a :: l) = digits (10 * acc + d) l.
Proof. intros Ha. cbn [digits]. by rewrite Ha. Qed.

(** The characters that [pretty_N_go] puts in front of its accumulator are
    decimal digits, and [digits] reads them back. *)
Lemma pretty_N_go_digits x :
  (0 < x)%N ->
  exists ds,
    ds <> [] /\
    Forall (fun a => is_Some (digit_val a) /\ is_space a = false) ds /\
    (forall s, list_ascii_of_string (pretty_N_go x s)
               = ds ++ list_ascii_of_string s) /\
    (forall acc l,
       digits acc (ds ++ l)
       = digits (acc * 10 ^ Z.of_nat (List.length ds) + Z.of_N x) l).
Proof.
  induction (N.lt_wf_0 x) as [x _ IH]. intros Hx.
  destruct (pretty_N_char_digit (x `mod` 10)%N) as [Hd Hsp];
    [by apply N.mod_lt|].
  assert (Z.of_N (x `div` 10) = Z.of_N x `div` 10) as Hdiv
    by (by rewrite N2Z.inj_div).
  assert (Z.of_N (x `mod` 10) = Z.of_N x `mod` 10) as Hmod
    by (by rewrite N2Z.inj_mod).
  pose proof (Z.div_mod (Z.of_N x) 10 ltac:(lia)) as Hdm.
  destruct (decide (x `div` 10 = 0)%N) as [Hz|Hnz].
  - exists [pretty_N_char (x `mod` 10)%N]. repeat split.
    + done.
    + constructor; [split; [eauto|done]|constructor].
    + intros s. rewrite pretty_N_go_step by done. by rewrite Hz, pretty_N_go_0.
    + intros acc l. cbn [app List.length]. rewrite (digits_digit _ _ _ _ Hd).
      f_equal. rewrite Hz in Hdiv. rewrite Hmod.
      change (Z.of_N 0) with 0 in Hdiv. change (10 ^ Z.of_nat 1) with 10.
      rewrite <- Hdiv in Hdm. lia.
  - destruct (IH (x `div` 10)%N) as (ds & Hne & Hall & Hstr & Hread).
    { apply N.div_lt; [done|lia]. }
    { by apply N.neq_0_lt_0. }
    exists (ds ++ [pretty_N_char (x `mod` 10)%N]). repeat split.
    + by destruct ds.
    + apply Forall_app. split; [done|].
      constructor; [split; [eauto|done]|constructor].
    + intros s. rewrite pretty_N_go_step by done. rewrite Hstr.
      cbn [list_ascii_of_string]. by rewrite <- app_assoc.
    + intros acc l. rewrite <- app_assoc. cbn [app]. rewrite Hread.
      rewrite (digits_digit _ _ _ _ Hd). f_equal.
      rewrite length_app. cbn [List.length].
      rewrite Nat2Z.inj_add, Z.pow_add_r by lia.
      change (10 ^ Z.of_nat 1) with 10. rewrite Hmod, Hdiv.
      set (q := Z.of_N x `div` 10) in *. set (m := Z.of_N x `mod` 10) in *.
      rewrite Hdm. ring.
Qed.

Lemma strip_no_space l :
  Forall (fun a => is_space a = false) l -> strip l = l.
Proof.
  intros Hl. unfold strip.
  assert (forall l', Forall (fun a => is_space a = false) l' -> lstrip l' = l')
    as Hls.
  { intros [|a l'] H; [done|]. inversion H; subst. cbn. by rewrite H2. }
  rewrite (Hls l Hl). rewrite Hls by (by apply List.Forall_rev).
  apply rev_involutive.
Qed.

Lemma unsigned_pretty_positive p :
  exists ds,
    list_ascii_of_string (pretty (N.pos p)) = ds /\
    Forall (fun a => is_Some (digit_val a) /\ is_space a = false) ds /\
    ds <> [] /\
    unsigned ds = Some (Z.pos p).
Proof.
  destruct (pretty_N_go_digits (N.pos p)) as (ds & Hne & Hall & Hstr & Hread);
    [lia|].
  exists ds. split.
  { unfold pretty, pretty_N. rewrite decide_False by done.
    rewrite Hstr. cbn. by rewrite app_nil_r. }
  split; [done|]. split; [done|].
  destruct ds as [|a ds']; [done|].
  inversion Hall as [|? ? [[d Hd] _] _]; subst.
  cbn [unsigned]. rewrite Hd.
  specialize (Hread 0 []). rewrite app_nil_r in Hread.
  rewrite (digits_digit _ _ _ _ Hd) in Hread.
  replace (10 * 0 + d) with d in Hread by lia. rewrite Hread. cbn [digits].
  by rewrite Z.mul_0_l.
Qed.

(** [int(str(n))] is [n]: the decimal string of an integer is read back as
    that integer. *)
Lemma int_of_str_of_int n : int_of_str (str_of_int n) = Some n.
Proof.
  unfold str_of_int, pretty, pretty_Z. destruct n as [|p|p]; [done|..].
  - change (pretty p) with (pretty (N.pos p)).
    destruct (unsigned_pretty_positive p) as (ds & Hds & Hall & Hne & Hread).
    unfold int_of_str. rewrite Hds.
    rewrite strip_no_space by (eapply Forall_impl; [exact Hall|]; by intros ? []).
    destruct ds as [|a ds']; [done|].
    inversion Hall as [|? ? [[d Hd] _] _]; subst.
    destruct (Ascii.eqb_spec a "+") as [->|_]; [done|].
    destruct (Ascii.eqb_spec a "-") as [->|_]; [done|]. done.
  - change (pretty p) with (pretty (N.pos p)).
    destruct (unsigned_pretty_positive p) as (ds & Hds & Hall & Hne & Hread).
    unfold int_of_str.
    change (list_ascii_of_string ("-" +:+ pretty (N.pos p)))
      with ("-"%char :: list_ascii_of_string (pretty (N.pos p))).
    rewrite Hds.
    rewrite strip_no_space.
    + change (Ascii.eqb "-" "+") with false. change (Ascii.eqb "-" "-") with true.
      cbn match. by rewrite Hread.
    + constructor; [done|]. eapply Forall_impl; [exact Hall|]. by intros ? [].
Qed.

(** X11. For every integer [n], [delete_agent] with the decimal string of
    [n] does what [delete_agent] with [n] does. *)
Theorem delete_agent_decimal_string self n :
  delete_agent self (KStr (str_of_int n)) = delete_agent self (KInt n).
Proof. unfold delete_agent. cbn [int_]. by rewrite int_of_str_of_int. Qed.

(** X12. For every integer [n], as long as the registry has no record under
    the decimal string of [n], [message_agent] with that string does what
    [message_agent] with [n] does: the same outcome and the same manager. *)
Theorem message_agent_decimal_string llm self n message :
  agents self !! KStr (str_of_int n) = None ->
  message_agent llm self (KStr (str_of_int n)) message
  = message_agent llm self (KInt n) message.
Proof.
  intros Hstr.
  assert (find_agent self (KStr (str_of_int n)) = find_agent self (KInt n)) as Hf.
  { unfold find_agent. cbn [int_ str_]. rewrite int_of_str_of_int.
    rewrite (decide_False (P := is_Some (agents self !! KStr (str_of_int n))))
      by (rewrite Hstr; by intros [? [=]]).
    destruct (decide (is_Some (agents self !! KInt n))); done. }
  unfold message_agent. by rewrite Hf.
Qed.

Lemma message_agent_decimal_string_witness :
  message_agent (always "Hi") helped_agent (KStr (str_of_int 0)) "ping"
  = message_agent (always "Hi") helped_agent (KInt 0) "ping".
Proof.
  exact (message_agent_decimal_string (always "Hi") helped_agent 0 "ping" eq_refl).
Defined.

(** ** Any sequence of calls *)

Section ExecProps.

Variable llm : string -> list Message -> Config -> result string.

Lemma create_turn_prefix c model hist :
  exists rest, snd (create_turn llm c model hist) = hist ++ rest.
Proof.
  rewrite create_turn_phases.
  destruct (pre_loop _ _) as [[[]|e] h0] eqn:Hpre;
    destruct (pre_loop_extends _ _ _ _ Hpre) as [added ->].
  - destruct (after_pre_prefix llm c model (fun _ => "") Return (hist ++ added))
      as [more ->].
    exists (added ++ more). by rewrite <- app_assoc.
  - by exists added.
Qed.

(** The manager after [create_agent]: the old one, or the old one with one
    more record, whose history starts with the prompt. *)
Lemma create_agent_changes self task prompt model :
  let self' := snd (create_agent llm self task prompt model) in
  self' = self \/
  exists rest, self' = stored self task model (user_msg prompt :: rest).
Proof.
  cbn zeta. unfold create_agent. fold (user_msg prompt).
  destruct (create_turn_prefix (cfg self) model [user_msg prompt]) as [rest Hrest].
  destruct (create_turn _ _ _ _) as [[agent_reply|e] messages];
    cbn [snd] in *; [|by left].
  subst messages. right. exists rest.
  by destruct (post_loop _ agent_reply).
Qed.

Lemma perform_next_key self c : next_key self <= next_key (perform llm self c).
Proof.
  destruct c as [task prompt model|k message|k]; cbn [perform].
  - destruct (create_agent_changes self task prompt model) as [->|[rest ->]];
      cbn; lia.
  - destruct (message_agent_changes llm self k message) as (-> & _). lia.
  - rewrite delete_agent_next_key. lia.
Qed.

Lemma perform_absent self c j :
  used_up self j -> agents self !! j = None ->
  used_up (perform llm self c) j /\ agents (perform llm self c) !! j = None.
Proof.
  intros Hused Hj. split.
  { pose proof (perform_next_key self c). destruct j; cbn in *; [lia|done]. }
  destruct c as [task prompt model|k message|k]; cbn [perform].
  - destruct (create_agent_changes self task prompt model) as [->|[rest ->]];
      [done|].
    cbn. rewrite lookup_insert_ne; [done|]. intros <-. cbn in Hused. lia.
  - destruct (message_agent_changes llm self k message) as (_ & _ & Hdom & _).
    apply not_elem_of_dom. rewrite Hdom. by apply not_elem_of_dom.
  - unfold delete_agent. destruct (int_ k) as [n|e]; [|done].
    destruct (agents self !! KInt n); [|done].
    cbn. destruct (decide (j = KInt n)) as [->|Hne].
    + apply lookup_delete_eq.
    + by rewrite lookup_delete_ne.
Qed.

Lemma perform_keys_below_next self c :
  keys_below_next self -> keys_below_next (perform llm self c).
Proof.
  intros Hinv n Hn.
  destruct (agents self !! KInt n) as [rec|] eqn:Hold.
  - pose proof (perform_next_key self c).
    assert (n < next_key self) by (apply Hinv; eauto). lia.
  - destruct c as [task prompt model|k message|k]; cbn [perform] in *.
    + destruct (create_agent_changes self task prompt model) as [Hs|[rest Hs]];
        rewrite Hs in *.
      * rewrite Hold in Hn. by destruct Hn.
      * cbn in *. destruct (decide (n = next_key self)) as [->|Hne]; [lia|].
        rewrite lookup_insert_ne in Hn by congruence.
        rewrite Hold in Hn. by destruct Hn.
    + destruct (message_agent_changes llm self k message) as (_ & _ & Hdom & _).
      apply elem_of_dom in Hn. rewrite Hdom in Hn. apply elem_of_dom in Hn.
      rewrite Hold in Hn. by destruct Hn.
    + destruct (perform_absent self (CallDelete k) (KInt n)) as [_ Hgone].
      * cbn. destruct Hn as [rec Hn].
        destruct (int_ k) as [m|e] eqn:Hint.
        -- destruct (delete_agent_changes self k m Hint) as (_ & Hag & _).
           cbn zeta in Hag. rewrite Hag in Hn.
           apply lookup_delete_Some in Hn as [_ Hn]. congruence.
        -- unfold delete_agent in Hn. rewrite Hint in Hn. cbn in Hn. congruence.
      * done.
      * cbn [perform] in Hgone. rewrite Hgone in Hn. by destruct Hn.
Qed.

Lemma exec_absent calls : forall self j,
  used_up self j -> agents self !! j = None ->
  agents (exec llm self calls) !! j = None.
Proof.
  induction calls as [|c calls IH]; intros self j Hused Hj; [done|].
  cbn [exec fold_left]. destruct (perform_absent self c j Hused Hj).
  by apply IH.
Qed.

(** One call keeps a record or removes it; it does not put another agent in
    its place. *)
Lemma perform_record self c j task hist model :
  keys_below_next self ->
  agents self !! j = Some (task, hist, model) ->
  agents (perform llm self c) !! j = None \/
  exists hist', agents (perform llm self c) !! j = Some (task, hist', model) /\
                hist `prefix_of` hist'.
Proof.
  intros Hinv Hj.
  destruct c as [task' prompt model'|k message|k]; cbn [perform].
  - right. exists hist. split; [|done].
    destruct (create_agent_changes self task' prompt model') as [->|[rest ->]];
      [done|].
    cbn. rewrite lookup_insert_ne; [done|]. intros <-.
    assert (next_key self < next_key self) by (apply Hinv; eauto). lia.
  - right.
    destruct (message_agent_changes llm self k message) as (_ & _ & _ & Hrec).
    by apply Hrec.
  - unfold delete_agent. destruct (int_ k) as [n|e]; [|right; by exists hist].
    destruct (agents self !! KInt n); [|right; by exists hist].
    cbn. destruct (decide (j = KInt n)) as [->|Hne].
    + left. apply lookup_delete_eq.
    + right. exists hist. by rewrite lookup_delete_ne.
Qed.

(** X13. Histories only grow, over any sequence of calls. In a manager
    whose integer keys are all below the counter, a record that is in the
    registry before a sequence of [create_agent], [message_agent] and
    [delete_agent] calls and under the same key after it has kept its task
    and its model, and its old history is a prefix of its new one. *)
Theorem exec_append_only calls : forall self j task hist model rec',
  keys_below_next self ->
  agents self !! j = Some (task, hist, model) ->
  agents (exec llm self calls) !! j = Some rec' ->
  exists hist', rec' = (task, hist', model) /\ hist `prefix_of` hist'.
Proof.
  induction calls as [|c calls IH]; intros self j task hist model rec' Hinv Hj Hend.
  - cbn in Hend. rewrite Hj in Hend. injection Hend as <-. by exists hist.
  - cbn [exec fold_left] in Hend. fold (exec llm (perform llm self c) calls) in Hend.
    destruct (perform_record self c j task hist model Hinv Hj)
      as [Hgone|(hist1 & Hj1 & Hpre)].
    + rewrite exec_absent in Hend; [done| |done].
      pose proof (perform_next_key self c).
      destruct j as [n|s]; cbn; [|done].
      assert (n < next_key self) by (apply Hinv; eauto). lia.
    + destruct (IH _ _ _ _ _ _ (perform_keys_below_next self c Hinv) Hj1 Hend)
        as (hist' & -> & Hpre').
      exists hist'. split; [done|]. by etrans.
Qed.

Lemma perform_from_calls all self c :
  In c all -> from_calls all self -> from_calls all (perform llm self c).
Proof.
  intros Hc [Hnk Hrecs].
  pose proof (perform_next_key self c) as Hle.
  split; [lia|]. intros k rec Hk.
  destruct c as [task prompt model|k0 message|k0]; cbn [perform] in *.
  - destruct (create_agent_changes self task prompt model) as [Hs|[rest Hs]];
      rewrite Hs in *.
    + by apply Hrecs.
    + cbn in *. destruct (decide (k = KInt (next_key self))) as [->|Hne].
      * rewrite lookup_insert_eq in Hk. injection Hk as <-. split.
        -- exists (next_key self). split; [done|lia].
        -- by exists task, prompt, model, rest.
      * rewrite lookup_insert_ne in Hk by done.
        destruct (Hrecs k rec Hk) as [(n & -> & Hn) Hmade].
        split; [|done]. exists n. split; [done|lia].
  - destruct (message_agent_changes llm self k0 message)
      as (Hnext & _ & Hdom & Hgrow).
    assert (is_Some (agents self !! k)) as [[[task hist] model] Hold].
    { apply elem_of_dom. rewrite <- Hdom. apply elem_of_dom. eauto. }
    destruct (Hrecs k _ Hold) as [Hkey (t & p & m & rest & Hin & Heq)].
    injection Heq as -> -> ->.
    destruct (Hgrow k _ _ _ Hold) as (hist' & Hnew & [more ->]).
    pose proof (eq_trans (eq_sym Hk) Hnew) as Heq. injection Heq as ->. split.
    + destruct Hkey as (n & -> & Hn). exists n. split; [done|lia].
    + exists t, p, m, (rest ++ more). by split.
  - assert (agents self !! k = Some rec) as Hold.
    { unfold delete_agent in Hk. destruct (int_ k0) as [n|e]; [|done].
      destruct (agents self !! KInt n); [|done].
      cbn in Hk. by apply lookup_delete_Some in Hk as [_ Hk]. }
    destruct (Hrecs k rec Hold) as [(n & -> & Hn) Hmade].
    split; [|done]. exists n. split; [done|lia].
Qed.

Lemma exec_from_calls all calls : forall self,
  (forall c, In c calls -> In c all) ->
  from_calls all self -> from_calls all (exec llm self calls).
Proof.
  induction calls as [|c calls IH]; intros self Hsub Hinv; [done|].
  cbn [exec fold_left]. apply IH.
  - intros c' Hc'. apply Hsub. by right.
  - apply perform_from_calls; [|done]. apply Hsub. by left.
Qed.

(** X14. In a manager that started with an empty registry, after any
    sequence of [create_agent], [message_agent] and [delete_agent] calls,
    every key of the registry is an integer from 0 up to, and not
    including, [next_key], and every record was made by one of the
    [create_agent] calls of the sequence: it has the task and the model of
    that call and a history that is not empty and starts with its prompt. *)
Theorem exec_from_empty c calls k rec :
  let self := exec llm (init c ∅) calls in
  agents self !! k = Some rec ->
  (exists n, k = KInt n /\ 0 <= n < next_key self) /\
  exists task prompt model rest,
    In (CallCreate task prompt model) calls /\
    rec = (task, user_msg prompt :: rest, model).
Proof.
  cbn zeta. intros Hk.
  assert (from_calls calls (init c ∅)) as Hinit.
  { split; [done|]. intros k' rec' Hk'. cbn in Hk'.
    by rewrite lookup_empty in Hk'. }
  destruct (exec_from_calls calls calls (init c ∅) ltac:(done) Hinit)
    as [_ Hrecs].
  by apply Hrecs.
Qed.

End ExecProps.

(** ** The registry with its order, and [list_agents] *)

Lemma od_get_map d k : od_map d !! k = od_get k d.
Proof.
  unfold od_map. induction d as [|[k' v] d IH]; [done|].
  cbn [list_to_map od_get foldr fst snd]. destruct (decide (k' = k)) as [->|Hne].
  - apply lookup_insert_eq.
  - by rewrite lookup_insert_ne.
Qed.

Lemma od_set_map k v d : od_map (od_set k v d) = <[k := v]> (od_map d).
Proof.
  unfold od_map. induction d as [|[k' v'] d IH]; [done|].
  cbn [od_set]. destruct (decide (k' = k)) as [->|Hne]; cbn.
  - by rewrite insert_insert_eq.
  - rewrite IH. by apply insert_insert_ne.
Qed.

Lemma od_del_map k d : od_map (od_del k d) = delete k (od_map d).
Proof.
  unfold od_map, od_del. induction d as [|[k' v'] d IH]; cbn.
  - by rewrite delete_empty.
  - destruct (bool_decide_reflect (k' = k)) as [->|Hne]; cbn.
    + rewrite IH. by rewrite delete_insert_eq.
    + rewrite IH. by rewrite delete_insert_ne.
Qed.

Lemma od_get_None k d : od_get k d = None <-> ~ In k (map fst d).
Proof.
  induction d as [|[k' v] d IH]; cbn; [tauto|].
  destruct (decide (k' = k)) as [->|Hne]; [split; [done|tauto]|].
  rewrite IH. tauto.
Qed.

(** A new key goes to the end. *)
Lemma od_set_new k v d : od_get k d = None -> od_set k v d = d ++ [(k, v)].
Proof.
  induction d as [|[k' v'] d IH]; cbn; [done|].
  destruct (decide (k' = k)); [done|]. intros H. by rewrite IH.
Qed.

(** A key that is there keeps its place. *)
Lemma od_set_keys k v d : is_Some (od_get k d) -> map fst (od_set k v d) = map fst d.
Proof.
  induction d as [|[k' v'] d IH]; cbn; [by intros [? [=]]|].
  destruct (decide (k' = k)) as [->|Hne]; [done|]. intros H. cbn. by rewrite IH.
Qed.

Lemma od_del_absent k d : od_get k d = None -> od_del k d = d.
Proof.
  unfold od_del. induction d as [|[k' v'] d IH]; cbn; [done|].
  destruct (decide (k' = k)) as [->|Hne]; [done|]. intros H.
  rewrite bool_decide_eq_false_2 by done. cbn. by rewrite IH.
Qed.

Lemma od_set_wf k v d : od_wf d -> od_wf (od_set k v d).
Proof.
  unfold od_wf. intros Hwf. destruct (od_get k d) eqn:Hk.
  - by rewrite od_set_keys by eauto.
  - rewrite od_set_new by done. rewrite map_app. cbn.
    apply NoDup_app. split; [done|]. split; [|apply NoDup_singleton].
    intros x Hx ->%list_elem_of_singleton.
    apply od_get_None in Hk. apply Hk. by apply list_elem_of_In.
Qed.

Lemma od_del_keys k d :
  map fst (od_del k d)
  = List.filter (fun k' => negb (bool_decide (k' = k))) (map fst d).
Proof.
  unfold od_del. induction d as [|[k' v'] d IH]; cbn; [done|].
  destruct (bool_decide (k' = k)); cbn; by rewrite IH.
Qed.

Lemma od_del_wf k d : od_wf d -> od_wf (od_del k d).
Proof.
  unfold od_wf. rewrite od_del_keys. intros Hwf.
  apply NoDup_ListNoDup, List.NoDup_filter. by apply NoDup_ListNoDup.
Qed.

Section OrderedProps.

Variable llm : string -> list Message -> Config -> result string.

(** X15. The operations on the ordered registry are the operations of the
    manager, seen with the order of the registry: forgetting the order after
    [__init__], [create_agent], [message_agent] or [delete_agent] gives the
    outcome and the manager of the same call on the manager without the
    order. The keys of the registry stay pairwise different. *)
Theorem ordered_operations_agree o task prompt model k message c d :
  (od_wf d -> view (ordered_init c d) = init c (od_map d)) /\
  (let r := ordered_create_agent llm o task prompt model in
   (fst r, view (snd r)) = create_agent llm (view o) task prompt model /\
   (od_wf (o_agents o) -> od_wf (o_agents (snd r)))) /\
  (let r := ordered_message_agent llm o k message in
   (fst r, view (snd r)) = message_agent llm (view o) k message /\
   (od_wf (o_agents o) -> od_wf (o_agents (snd r)))) /\
  (let r := ordered_delete_agent o k in
   (fst r, view (snd r)) = delete_agent (view o) k /\
   (od_wf (o_agents o) -> od_wf (o_agents (snd r)))).
Proof.
  split; [|split; [|split]]; cbn zeta.
  - intros Hwf. unfold view, ordered_init, init, od_map. cbn.
    by rewrite map_size_list_to_map.
  - unfold ordered_create_agent, create_agent. cbn [cfg view next_key agents].
    destruct (create_turn _ _ _ _) as [[agent_reply|e] messages]; [|done].
    destruct (post_loop _ agent_reply); cbn [fst snd]; unfold view, stored; cbn;
      rewrite od_set_map; (split; [done|apply od_set_wf]).
  - unfold ordered_message_agent, message_agent.
    destruct (find_agent (view o) k) as [[k'|]|e]; [|done..].
    cbn [agents view cfg]. rewrite od_get_map.
    destruct (od_get k' (o_agents o)) as [[[task0 hist0] model0]|]; [|done].
    destruct (message_turn _ _ _ _ _) as [r hist']. cbn [fst snd].
    unfold view, set_agents; cbn. rewrite od_set_map.
    split; [done|apply od_set_wf].
  - unfold ordered_delete_agent, delete_agent.
    destruct (int_ k) as [n|e]; [|done].
    cbn [agents view]. rewrite od_get_map.
    destruct (od_get (KInt n) (o_agents o)); [|done].
    cbn [fst snd]. unfold view, set_agents; cbn. rewrite od_del_map.
    split; [done|apply od_del_wf].
Qed.

End OrderedProps.

Lemma list_agents_keys o : map fst (list_agents o) = map fst (o_agents o).
Proof.
  unfold list_agents. induction (o_agents o) as [|[k [[t h] m]] d IH]; [done|].
  cbn. by rewrite IH.
Qed.

(** X16. [list_agents] has one entry for every agent of the registry and no
    other: every key occurs once, and [(key, task)] is in the list exactly
    when the registry has a record with that task under that key. *)
Theorem list_agents_sessions o :
  od_wf (o_agents o) ->
  NoDup (map fst (list_agents o)) /\
  List.length (list_agents o) = size (agents (view o)) /\
  forall k task,
    In (k, task) (list_agents o) <->
    exists hist model, agents (view o) !! k = Some (task, hist, model).
Proof.
  intros Hwf. split; [by rewrite list_agents_keys|]. split.
  { unfold list_agents. rewrite length_map. cbn. unfold od_map.
    symmetry. apply map_size_list_to_map. exact Hwf. }
  intros k task. cbn [agents view]. rewrite od_get_map.
  unfold list_agents. unfold od_wf in Hwf.
  induction (o_agents o) as [|[k' [[t h] m]] d IH]; cbn.
  - split; [done|]. by intros (? & ? & [=]).
  - inversion Hwf as [|? ? Hk' Hwf']; subst.
    destruct (decide (k' = k)) as [->|Hne].
    + split.
      * intros [[= <-]|Hin]; [eauto|].
        exfalso. apply Hk'. rewrite list_elem_of_In.
        apply (in_map fst) in Hin. cbn in Hin.
        revert Hin. clear. induction d as [|[k2 [[t2 h2] m2]] d IH]; [done|].
        cbn. intros [->|H]; [by left|right; by apply IH].
      * intros (hist & model & [= -> -> ->]). by left.
    + rewrite <- (IH Hwf'). split; [|by right].
      intros [[= ? ?]|Hin]; [done|done].
Qed.

(** X17. When the key of the counter is free, a call of [create_agent] that
    stores a record puts it at the end of what [list_agents] shows. *)
Theorem list_agents_after_create llm o task prompt model k reply o' :
  od_get (KInt (o_next_key o)) (o_agents o) = None ->
  ordered_create_agent llm o task prompt model = (Return (k, reply), o') ->
  list_agents o' = list_agents o ++ [(KInt k, task)].
Proof.
  intros Hfree. unfold ordered_create_agent.
  destruct (create_turn _ _ _ _) as [[agent_reply|e] messages]; [|done].
  destruct (post_loop _ agent_reply); [|done]. intros [= <- <- <-].
  unfold list_agents. cbn. rewrite od_set_new by done. by rewrite map_app.
Qed.

(** X18. [message_agent] does not change what [list_agents] shows, whether
    it returns or raises: the same keys with the same tasks in the same
    order. *)
Theorem list_agents_after_message llm o k message :
  list_agents (snd (ordered_message_agent llm o k message)) = list_agents o.
Proof.
  unfold ordered_message_agent.
  destruct (find_agent (view o) k) as [[k'|]|e]; [|done..].
  destruct (od_get k' (o_agents o)) as [[[task hist] model]|] eqn:Hk; [|done].
  destruct (message_turn _ _ _ _ _) as [r hist']. cbn [snd].
  unfold list_agents. cbn [o_agents o_set_agents].
  revert Hk. induction (o_agents o) as [|[k2 [[t2 h2] m2]] d IH]; [done|].
  cbn. destruct (decide (k2 = k')) as [->|Hne].
  - by intros [= -> -> ->].
  - intros H. cbn. by rewrite IH.
Qed.

(** X19. When [int(key)] returns [n], [delete_agent] takes the entry of the
    integer key [n] out of what [list_agents] shows and leaves the other
    entries in their order. *)
Theorem list_agents_after_delete o k n :
  int_ k = Return n ->
  list_agents (snd (ordered_delete_agent o k))
  = List.filter (fun kt => negb (bool_decide (fst kt = KInt n))) (list_agents o).
Proof.
  intros Hint. unfold ordered_delete_agent. rewrite Hint.
  assert (list_agents (o_set_agents o (od_del (KInt n) (o_agents o)))
          = List.filter (fun kt => negb (bool_decide (fst kt = KInt n)))
              (list_agents o)) as Hdel.
  { unfold list_agents, od_del. cbn.
    induction (o_agents o) as [|[k2 [[t2 h2] m2]] d IH]; [done|].
    cbn. destruct (bool_decide (k2 = KInt n)); cbn; by rewrite IH. }
  destruct (od_get (KInt n) (o_agents o)) eqn:Hn; cbn [snd]; [done|].
  rewrite <- Hdel. by rewrite od_del_absent.
Qed.

(** ** The order of [list_agents] *)

Lemma sorted_snoc ns n :
  StronglySorted Z.lt ns -> Forall (fun m => m < n) ns ->
  StronglySorted Z.lt (ns ++ [n]).
Proof.
  induction 1 as [|m ns Hs IH Hm]; intros Hn; cbn.
  - constructor; constructor.
  - inversion Hn as [|? ? Hmn Hn']; subst. constructor; [by apply IH|].
    apply Forall_app. split; [done|]. by constructor.
Qed.

Lemma sorted_filter (f : Z -> bool) ns :
  StronglySorted Z.lt ns -> StronglySorted Z.lt (List.filter f ns).
Proof.
  induction 1 as [|m ns Hs IH Hm]; cbn; [constructor|].
  destruct (f m); [|done]. constructor; [done|].
  apply Forall_forall. intros x Hx%list_elem_of_In%filter_In.
  destruct Hx as [Hx _]. apply list_elem_of_In in Hx.
  by eapply (proj1 (Forall_forall _ _) Hm).
Qed.

Lemma od_get_int_keys n ns d :
  map fst d = map KInt ns -> ~ In n ns -> od_get (KInt n) d = None.
Proof.
  intros Hkeys Hn. apply od_get_None. rewrite Hkeys.
  intros Hin%in_map_iff. destruct Hin as (m & [= ->] & Hm). done.
Qed.

Section OrderedOrder.

Variable llm : string -> list Message -> Config -> result string.

Lemma ordered_perform_oldest_first o c :
  oldest_first o -> oldest_first (ordered_perform llm o c).
Proof.
  intros (Hnk & ns & Hkeys & Hsorted & Hbelow).
  assert (oldest_first o) as Hsame by (split; [done|by exists ns]).
  destruct c as [task prompt model|k message|k]; cbn [ordered_perform].
  - unfold ordered_create_agent.
    destruct (create_turn _ _ _ _) as [[agent_reply|e] messages]; [|done].
    assert (oldest_first
              {| o_next_key := o_next_key o + 1; o_cfg := o_cfg o;
                 o_agents := od_set (KInt (o_next_key o)) (task, messages, model)
                               (o_agents o) |}) as Hinv.
    { split; [cbn; lia|]. exists (ns ++ [o_next_key o]). cbn. rewrite od_set_new.
      - rewrite !map_app, Hkeys. split; [done|]. split.
        + apply sorted_snoc; [done|].
          eapply Forall_impl; [exact Hbelow|]. cbn. lia.
        + apply Forall_app. split.
          * eapply Forall_impl; [exact Hbelow|]. cbn. lia.
          * constructor; [lia|done].
      - apply (od_get_int_keys _ ns); [done|].
        intros Hin%list_elem_of_In.
        pose proof (proj1 (Forall_forall _ _) Hbelow _ Hin). cbn in *. lia. }
    by destruct (post_loop _ agent_reply).
  - unfold ordered_message_agent.
    destruct (find_agent (view o) k) as [[k'|]|e]; [|done..].
    destruct (od_get k' (o_agents o)) as [[[task hist] model]|] eqn:Hk; [|done].
    destruct (message_turn _ _ _ _ _) as [r hist']. cbn [snd].
    split; [done|]. exists ns. cbn. by rewrite od_set_keys by eauto.
  - unfold ordered_delete_agent. destruct (int_ k) as [n|e]; [|done].
    destruct (od_get (KInt n) (o_agents o)); [|done]. cbn [snd].
    split; [done|].
    exists (List.filter (fun m => negb (bool_decide (m = n))) ns). cbn.
    split; [|split].
    + rewrite od_del_keys, Hkeys. clear.
      induction ns as [|m ns IH]; [done|]. cbn.
      destruct (decide (m = n)) as [->|Hne].
      * by rewrite !bool_decide_eq_true_2.
      * rewrite !bool_decide_eq_false_2 by congruence. cbn. by rewrite IH.
    + by apply sorted_filter.
    + apply Forall_forall. intros x Hx%list_elem_of_In%filter_In.
      destruct Hx as [Hx _]. apply list_elem_of_In in Hx.
      by eapply (proj1 (Forall_forall _ _) Hbelow).
Qed.

(** X20. [list_agents] shows the agents from the oldest to the newest. In
    a manager that started with an empty registry, after any sequence of
    [create_agent], [message_agent] and [delete_agent] calls, the keys that
    [list_agents] shows are integers between 0 and [next_key], in strictly
    increasing order. *)
Theorem list_agents_oldest_first c calls :
  let o := ordered_exec llm (ordered_init c []) calls in
  exists ns,
    map fst (list_agents o) = map KInt ns /\
    StronglySorted Z.lt ns /\
    Forall (fun n => 0 <= n < o_next_key o) ns.
Proof.
  cbn zeta.
  assert (oldest_first (ordered_init c [])) as Hinit.
  { split; [done|]. exists []. repeat split; constructor. }
  revert Hinit. generalize (ordered_init c []).
  induction calls as [|call calls IH]; intros o Hinv.
  - destruct Hinv as (_ & ns & Hkeys & Hrest). exists ns.
    by rewrite list_agents_keys.
  - cbn [ordered_exec fold_left]. apply IH.
    by apply ordered_perform_oldest_first.
Qed.

End OrderedOrder.

(** ** The further statements at concrete managers *)

Local Ltac by_evaluation := apply (bool_decide_unpack _); vm_compute; exact I.

Lemma keys_below_next_one_agent : keys_below_next one_agent.
Proof.
  intros n [rec Hn]. cbn in Hn.
  apply lookup_singleton_Some in Hn as [[= <-] _]. done.
Defined.

Lemma exec_append_only_witness :
  exists hist',
    ("t", [user_msg "ping"; assistant_msg "Hi"; assistant_msg "Hi"], "m")
    = ("t", hist', "m") /\
    [] `prefix_of` hist'.
Proof.
  exact (exec_append_only (always "Hi")
           [CallCreate "t2" "p" "m2"; CallMessage (KStr "0") "ping";
            CallDelete (KInt 1)]
           one_agent (KInt 0) "t" [] "m" _
           keys_below_next_one_agent eq_refl eq_refl).
Defined.

Lemma exec_from_empty_witness :
  (exists n, KInt 1 = KInt n /\
     0 <= n < next_key (exec (always "Hi") (init no_plugins ∅)
                          [CallCreate "a" "p" "m"; CallCreate "b" "q" "m";
                           CallDelete (KInt 0); CallMessage (KInt 1) "ping"])) /\
  exists task prompt model rest,
    In (CallCreate task prompt model)
       [CallCreate "a" "p" "m"; CallCreate "b" "q" "m";
        CallDelete (KInt 0); CallMessage (KInt 1) "ping"] /\
    ("b", [user_msg "q"; assistant_msg "Hi"; user_msg "ping";
           assistant_msg "Hi"; assistant_msg "Hi"], "m")
    = (task, user_msg prompt :: rest, model).
Proof.
  exact (exec_from_empty (always "Hi") no_plugins
           [CallCreate "a" "p" "m"; CallCreate "b" "q" "m";
            CallDelete (KInt 0); CallMessage (KInt 1) "ping"]
           (KInt 1) _ eq_refl).
Defined.

Lemma od_wf_two_kinds : od_wf (o_agents two_kinds).
Proof. by_evaluation. Defined.

Lemma list_agents_sessions_witness :
  NoDup (map fst (list_agents two_kinds)) /\
  List.length (list_agents two_kinds) = size (agents (view two_kinds)) /\
  forall k task,
    In (k, task) (list_agents two_kinds) <->
    exists hist model, agents (view two_kinds) !! k = Some (task, hist, model).
Proof. exact (list_agents_sessions two_kinds od_wf_two_kinds). Defined.

Lemma list_agents_after_create_witness :
  list_agents (snd (ordered_create_agent (always "Hi") two_kinds "c" "p" "m"))
  = list_agents two_kinds ++ [(KInt 2, "c")].
Proof.
  exact (list_agents_after_create (always "Hi") two_kinds "c" "p" "m" 2 "Hi" _
           eq_refl eq_refl).
Defined.

Lemma list_agents_after_delete_witness :
  list_agents (snd (ordered_delete_agent two_kinds (KStr "7")))
  = List.filter (fun kt => negb (bool_decide (fst kt = KInt 7)))
      (list_agents two_kinds).
Proof. exact (list_agents_after_delete two_kinds (KStr "7") 7 eq_refl). Defined.

(** What [list_agents] shows along a run, by evaluation. *)
Example list_agents_run :
  list_agents two_kinds = [(KInt 7, "a"); (KStr "x", "b")] /\
  list_agents (ordered_exec (always "Hi") two_kinds
                 [CallCreate "c" "p" "m"; CallMessage (KStr "7") "ping";
                  CallDelete (KStr "7")])
  = [(KStr "x", "b"); (KInt 2, "c")].
Proof. split; reflexivity. Qed.

(** * The file helpers *)

Lemma append_inj_l (s x y : string) : s +:+ x = s +:+ y -> x = y.
Proof.
  induction s as [|a s IH]; [done|].
  rewrite !append_cons. intros [= H]. by apply IH.
Qed.

Lemma file_blob_name_prefix agent_id filename :
  file_blob_name agent_id filename = files_prefix agent_id +:+ filename.
Proof. unfold file_blob_name, files_prefix. by rewrite !append_assoc. Qed.

Lemma slash_splits a : forall a' f f',
  has_char "/" a = false -> has_char "/" a' = false ->
  a +:+ "/" +:+ f = a' +:+ "/" +:+ f' -> a = a' /\ f = f'.
Proof.
  induction a as [|c a IH]; intros [|c' a'] f f' Ha Ha'.
  - intros H. split; [done|]. by apply (append_inj_l "/").
  - rewrite append_cons. intros [= <- _]. cbn in Ha'. done.
  - rewrite append_cons. intros [= -> _]. cbn in Ha. done.
  - rewrite !append_cons. intros [= <- H].
    cbn in Ha, Ha'. apply orb_false_iff in Ha as [_ Ha].
    apply orb_false_iff in Ha' as [_ Ha'].
    destruct (IH a' f f' Ha Ha' H) as [-> ->]. done.
Qed.

(** X21. The blobs of [write_file] and [get_file] keep the agents apart:
    when the identifiers of two agents have no ["/"], the blob named for an
    agent and a file name is the blob named for another agent and file name
    only when agent and file name are the same. *)
Theorem file_blob_name_inj a f a' f' :
  has_char "/" a = false -> has_char "/" a' = false ->
  file_blob_name a f = file_blob_name a' f' -> a = a' /\ f = f'.
Proof.
  intros Ha Ha' H. unfold file_blob_name in H.
  apply append_inj_l in H. by apply slash_splits.
Qed.

Lemma file_blob_name_inj_witness :
  "agent-1" = "agent-1" /\ "notes/a.txt" = "notes/a.txt".
Proof.
  exact (file_blob_name_inj "agent-1" "notes/a.txt" "agent-1" "notes/a.txt"
           eq_refl eq_refl eq_refl).
Defined.

(** With a ["/"] in an identifier two agents can meet in one blob. *)
Example file_blob_name_shared :
  file_blob_name "a/b" "c" = file_blob_name "a" "b/c".
Proof. reflexivity. Qed.

Lemma prefix_append old s : String.prefix old (old +:+ s) = true.
Proof.
  induction old as [|a old IH]; [by destruct s|].
  rewrite append_cons. cbn. by destruct (ascii_dec a a).
Qed.

Lemma prefix_split old : forall s,
  String.prefix old s = true -> exists rest, s = old +:+ rest.
Proof.
  induction old as [|a old IH]; intros s H; [by exists s|].
  destruct s as [|b s]; [done|]. cbn in H.
  destruct (ascii_dec a b) as [->|]; [|done].
  destruct (IH s H) as [rest ->]. by exists rest.
Qed.

Lemma replace_from_skip old new l : forall s,
  replace_from old new (String.length l) (l +:+ s) = replace_from old new 0 s.
Proof.
  induction l as [|a l IH]; intros s; [done|].
  rewrite append_cons. cbn [String.length replace_from]. apply IH.
Qed.

Lemma replace_from_prefix old new s :
  old <> "" ->
  replace_from old new 0 (old +:+ s) = new +:+ replace_from old new 0 s.
Proof.
  intros Hold. destruct old as [|c old']; [done|].
  rewrite append_cons. cbn [replace_from].
  rewrite <- append_cons, prefix_append.
  cbn [String.length]. rewrite Nat.sub_1_r. cbn [Nat.pred].
  by rewrite replace_from_skip.
Qed.

Lemma replace_from_absent old new : forall s,
  (forall l1 l2, s <> l1 +:+ old +:+ l2) -> replace_from old new 0 s = s.
Proof.
  induction s as [|c s IH]; intros Habs; [done|].
  cbn [replace_from].
  destruct (String.prefix old (String c s)) eqn:Hp.
  - destruct (prefix_split _ _ Hp) as [rest Hrest].
    by destruct (Habs "" rest).
  - rewrite IH; [done|]. intros l1 l2 ->.
    by destruct (Habs (String c l1) l2).
Qed.

(** X22. [list_files] gives back the file names: when the listing holds
    the blobs that were named for the agent and the file names [files], the
    result is [files] with every further occurrence of the prefix cut out of
    each name; it is [files] itself when no file name contains the prefix. *)
Theorem list_files_names list_blobs agent_id files :
  list_blobs (files_prefix agent_id) = map (file_blob_name agent_id) files ->
  list_files list_blobs agent_id
    = map (str_replace (files_prefix agent_id) "") files /\
  (Forall (fun f => forall l1 l2, f <> l1 +:+ files_prefix agent_id +:+ l2) files ->
   list_files list_blobs agent_id = files).
Proof.
  intros Hlist.
  assert (forall f, str_replace (files_prefix agent_id) "" (file_blob_name agent_id f)
                    = str_replace (files_prefix agent_id) "" f) as Hcut.
  { intros f. rewrite file_blob_name_prefix. unfold str_replace.
    change (files_prefix agent_id)
      with (String "g" ("odmode-files/" +:+ agent_id +:+ "/")).
    by rewrite replace_from_prefix. }
  assert (list_files list_blobs agent_id
          = map (str_replace (files_prefix agent_id) "") files) as Heq.
  { unfold list_files. cbn zeta. rewrite Hlist, map_map.
    apply map_ext. exact Hcut. }
  split; [done|]. intros Habs. rewrite Heq. clear Heq Hlist.
  induction Habs as [|f files Hf _ IH]; [done|].
  cbn [map]. rewrite IH. f_equal.
  unfold str_replace.
  change (files_prefix agent_id)
    with (String "g" ("odmode-files/" +:+ agent_id +:+ "/")) in *.
  by apply replace_from_absent.
Qed.

Lemma list_files_names_witness :
  let listing := fun _ : string =>
    [file_blob_name "agent-1" "a.txt"; file_blob_name "agent-1" "b/c.txt"] in
  list_files listing "agent-1"
    = map (str_replace (files_prefix "agent-1") "") ["a.txt"; "b/c.txt"] /\
  (Forall (fun f => forall l1 l2, f <> l1 +:+ files_prefix "agent-1" +:+ l2)
     ["a.txt"; "b/c.txt"] ->
   list_files listing "agent-1" = ["a.txt"; "b/c.txt"]).
Proof.
  exact (list_files_names
           (fun _ => [file_blob_name "agent-1" "a.txt";
                      file_blob_name "agent-1" "b/c.txt"])
           "agent-1" ["a.txt"; "b/c.txt"] eq_refl).
Defined.

(** A file name that contains the prefix does not come back as it was. *)
Example list_files_cuts_inside :
  list_files (fun _ => [file_blob_name "A" "godmode-files/A/x"]) "A" = ["x"].
Proof. reflexivity. Qed.

(** * The reply of a turn, and fresh keys *)

Section Replies.

Variable llm : string -> list Message -> Config -> result string.

(** X23. The reply that [message_agent] returns is the reply of the backend
    after the post-instruction plugins have worked on it, one after the
    other; the history keeps the reply as the backend gave it. When no
    plugin takes part in the post-instruction phase, the two are the same. *)
Theorem message_agent_reply self k message reply self' :
  message_agent llm self k message = (Return reply, self') ->
  exists k' task h0 model agent_reply rest,
    find_agent self k = Return (Some k') /\
    llm model h0 (cfg self) = Return agent_reply /\
    post_loop (plugins (cfg self)) agent_reply = Return reply /\
    agents self' !! k' = Some (task, h0 ++ assistant_msg agent_reply :: rest, model) /\
    (Forall (fun p => can_handle_post_instruction p = false) (plugins (cfg self)) ->
     reply = agent_reply).
Proof.
  intros H.
  destruct (message_agent_return _ _ _ _ _ _ H)
    as (k' & task & hist & model & added & agent_reply & plugins_reply & Hall).
  cbn zeta in Hall.
  destruct Hall as (Hf & Hk & Hpre & Hllm & Hon & Hpost & ->).
  exists k', task, (hist ++ [user_msg message] ++ added), model, agent_reply,
    (on_suffix plugins_reply).
  repeat split; try done.
  - cbn. rewrite lookup_insert_eq. by rewrite <- !app_assoc.
  - intros Hidle. clear -Hpost Hidle. revert Hpost.
    induction Hidle as [|p ps Hp _ IH]; cbn [post_loop].
    + by intros [= ->].
    + rewrite Hp. exact IH.
Qed.

Lemma exec_keys_below_next calls : forall self,
  keys_below_next self -> keys_below_next (exec llm self calls).
Proof.
  induction calls as [|c calls IH]; intros self Hinv; [done|].
  cbn [exec fold_left]. apply IH. by apply perform_keys_below_next.
Qed.

(** X24. Keys are not used twice. In a manager whose integer keys are all
    below the counter, after any sequence of [create_agent], [message_agent]
    and [delete_agent] calls, a call of [create_agent] that returns a key
    returns one that was not in the registry, so that the registry has one
    agent more and no record was replaced. *)
Theorem create_agent_never_overwrites self calls task prompt model k reply self' :
  keys_below_next self ->
  create_agent llm (exec llm self calls) task prompt model
    = (Return (k, reply), self') ->
  agents (exec llm self calls) !! KInt k = None /\
  size (agents self') = S (size (agents (exec llm self calls))) /\
  forall j, j <> KInt k -> agents self' !! j = agents (exec llm self calls) !! j.
Proof.
  intros Hinv Hc.
  pose proof (exec_keys_below_next calls self Hinv) as Hinv'.
  pose proof (create_agent_fresh_key llm _ _ _ _ _ _ _ Hinv' Hc) as Hfresh.
  destruct (create_agent_outcome llm _ _ _ _ _ _ Hc) as [[_ [=]]|[ms [-> Hk]]].
  rewrite (Hk k reply eq_refl) in *.
  split; [done|]. split.
  - cbn. by rewrite map_size_insert_None.
  - intros j Hj. cbn. by rewrite lookup_insert_ne.
Qed.

End Replies.

Lemma message_agent_reply_witness :
  let self := init (mkConfig [tags "> "; tags "# "]) {[ KInt 0 := ("t", [], "m") ]} in
  exists k' task h0 model agent_reply rest,
    find_agent self (KInt 0) = Return (Some k') /\
    always "Hi" model h0 (cfg self) = Return agent_reply /\
    post_loop (plugins (cfg self)) agent_reply = Return "# > Hi" /\
    agents (snd (message_agent (always "Hi") self (KInt 0) "ping")) !! k'
      = Some (task, h0 ++ assistant_msg agent_reply :: rest, model) /\
    (Forall (fun p => can_handle_post_instruction p = false) (plugins (cfg self)) ->
     "# > Hi" = agent_reply).
Proof.
  exact (message_agent_reply (always "Hi")
           (init (mkConfig [tags "> "; tags "# "]) {[ KInt 0 := ("t", [], "m") ]})
           (KInt 0) "ping" "# > Hi"
           (snd (message_agent (always "Hi")
                   (init (mkConfig [tags "> "; tags "# "])
                      {[ KInt 0 := ("t", [], "m") ]})
                   (KInt 0) "ping"))
           eq_refl).
Defined.

Lemma create_agent_never_overwrites_witness :
  agents (exec (always "Hi") one_agent [CallDelete (KInt 0); CallCreate "a" "p" "m"])
    !! KInt 2 = None /\
  size (agents (snd (create_agent (always "Hi")
                       (exec (always "Hi") one_agent
                          [CallDelete (KInt 0); CallCreate "a" "p" "m"])
                       "b" "q" "m")))
  = S (size (agents (exec (always "Hi") one_agent
                       [CallDelete (KInt 0); CallCreate "a" "p" "m"]))) /\
  forall j, j <> KInt 2 ->
    agents (snd (create_agent (always "Hi")
                   (exec (always "Hi") one_agent
                      [CallDelete (KInt 0); CallCreate "a" "p" "m"])
                   "b" "q" "m")) !! j
    = agents (exec (always "Hi") one_agent
                [CallDelete (KInt 0); CallCreate "a" "p" "m"]) !! j.
Proof.
  exact (create_agent_never_overwrites (always "Hi") one_agent
           [CallDelete (KInt 0); CallCreate "a" "p" "m"] "b" "q" "m" 2 "Hi" _
           keys_below_next_one_agent eq_refl).
Defined.
